(** * Barcelona Archives System: the chat client, the source view, the
  settings form and the retrieval pipeline they talk to

  The Vue components of the front end ([Home.vue], the source-document view
  and [Settings.vue]) are embedded function by function.  JavaScript strings
  are sequences of UTF-16 code units, component state is a record, and an
  [async] handler is the sequence of effects it performs in program order,
  replayed on the component state by an interpreter.  The front end talks
  to an HTTP back end whose code is not included; the parts of it the front
  end relies on are modelled from the design document and marked as such. *)

From stdpp Require Import base list sorting gmap strings numbers pretty.
From Stdlib Require Import QArith Qcanon.

Open Scope Z_scope.

(** ** JavaScript strings *)

Module JS.

(** A string is the list of its UTF-16 code units. *)
Abbreviation jsstring := (list N).

(** An ASCII literal as a JavaScript string. *)
Definition js (s : string) : jsstring :=
  (λ a : Ascii.ascii, Ascii.N_of_ascii a) <$> String.list_ascii_of_string s.

(** ECMAScript [WhiteSpace] and [LineTerminator] code units, the ones
    [String.prototype.trim] strips. *)
Definition isWhiteSpace (c : N) : bool :=
  bool_decide (c ∈ [9; 10; 11; 12; 13; 32; 160; 5760; 8232; 8233; 8239;
                    8287; 12288; 65279]%N)
  || ((8192 <=? c)%N && (c <=? 8202)%N).

Fixpoint trimStart (s : jsstring) : jsstring :=
  match s with
  | [] => []
  | c :: s' => if isWhiteSpace c then trimStart s' else s
  end.

Definition trimEnd (s : jsstring) : jsstring :=
  reverse (trimStart (reverse s)).

Definition trim (s : jsstring) : jsstring := trimEnd (trimStart s).

(** Truthiness of a string value: every string but the empty one. *)
Definition truthy (s : jsstring) : bool :=
  match s with [] => false | _ :: _ => true end.

Fixpoint startsWith (s sub : jsstring) : bool :=
  match sub, s with
  | [], _ => true
  | _ :: _, [] => false
  | c :: sub', d :: s' => (c =? d)%N && startsWith s' sub'
  end.

(** [s.indexOf(sub)], searching from offset [i] of the original string;
    [-1] when there is no occurrence. *)
Fixpoint indexOf_from (i : Z) (s sub : jsstring) : Z :=
  if startsWith s sub then i
  else match s with
       | [] => -1
       | _ :: s' => indexOf_from (i + 1) s' sub
       end.

Definition indexOf (s sub : jsstring) : Z := indexOf_from 0 s sub.

Definition includes (s sub : jsstring) : bool :=
  negb (indexOf s sub =? -1).

(** Index arguments are clamped to [0 .. length]. *)
Definition clamp (len : nat) (i : Z) : nat :=
  Z.to_nat (Z.min (Z.max i 0) (Z.of_nat len)).

(** [s.substring(a, b)]: clamps both ends and swaps them when [a > b]. *)
Definition substring (s : jsstring) (a b : Z) : jsstring :=
  let a' := clamp (length s) a in
  let b' := clamp (length s) b in
  take (Nat.max a' b' - Nat.min a' b') (drop (Nat.min a' b') s).

(** [s.substring(a)]: to the end of the string. *)
Definition substringFrom (s : jsstring) (a : Z) : jsstring :=
  drop (clamp (length s) a) s.

(** [s.split(sep)[0]] for a one-code-unit separator: the text before the
    first separator. *)
Fixpoint splitHead (sep : N) (s : jsstring) : jsstring :=
  match s with
  | [] => []
  | c :: s' => if (c =? sep)%N then [] else c :: splitHead sep s'
  end.

(** [s.replace(/[...]/g, m => f m)] for a class [cls] of single code units:
    every code unit in the class is replaced by its image. *)
Definition replaceClass (cls : N → bool) (f : N → jsstring)
    (s : jsstring) : jsstring :=
  s ≫= (λ c, if cls c then f c else [c]).

End JS.

(** ** The retrieval-augmented-generation pipeline (HTTP back end)

    None of the back end's code is among the sources; everything in this
    module is written from the design document, component by component. *)

Module Rag.
Import JS.

(** Modelled from the spec: the provider enumeration of the Model
    Configuration; the back end that declares it is not among the sources. *)
Inductive provider := openai | anthropic | gemini.

#[global] Instance provider_eq_dec : EqDecision provider.
Proof. solve_decision. Defined.

(** Modelled from the spec: the error taxonomy of the design document; the
    back end that raises these errors is not among the sources. *)
Inductive error :=
| EncodingError
| IndexUnavailableError
| MissingCredentialError
| ProviderRequestError (msg : jsstring).

(** A value or one of the errors above, for the operations that can fail. *)
Inductive result (A : Type) :=
| Ok (a : A)
| Err (e : error).
Arguments Ok {A} a.
Arguments Err {A} e.

Definition bind {A B : Type} (m : result A) (k : A → result B) : result B :=
  match m with Ok a => k a | Err e => Err e end.

Notation "'let*' x ':=' m 'in' k" := (bind m (λ x, k))
  (at level 10, x name, m at level 100, k at level 200).

Abbreviation vector := (list Qc).

(** Modelled from the spec: the Document Chunk of the data model, owned by
    the vector index that the ingestion job (absent) fills. *)
Record document_chunk := {
  id : nat;
  source_filename : jsstring;
  page_number : option nat;
  text : jsstring;
  embedding_vector : vector;
  chunk_web_url : option jsstring;
  chunk_has_watermark : bool
}.

(** Modelled from the spec: the vector index as the list of its chunks in
    insertion order, with a flag for whether the backing store answers. *)
Record vector_index := {
  reachable : bool;
  chunks : list document_chunk
}.

(** Modelled from the spec: the Retrieved Passage of the data model. *)
Record retrieved_passage := {
  chunk_id : nat;
  text_preview : jsstring;
  relevance_score : Qc;
  passage_filename : jsstring;
  passage_web_url : option jsstring;
  passage_has_watermark : bool
}.

(** Modelled from the spec: the Model Configuration; credentials are kept
    per provider. *)
Record model_config := {
  cfg_provider : provider;
  model_name : jsstring;
  temperature : Qc;
  api_key : provider → option jsstring
}.

(** Modelled from the spec: the RAG Response of the data model. *)
Record rag_response := {
  answer_text : jsstring;
  sources : list retrieved_passage;
  context_used : bool;
  num_sources : Z
}.

(** Modelled from the spec: what the design leaves to external models and to
    deployment configuration: the embedding model, the similarity measure of
    the index, the preview truncation, the provider SDK calls (a failure
    message on the left), the fixed system prompt, [top_k], and the fixed
    delimiter and the character budget of the context block. *)
Class Collaborators := {
  embed : jsstring → vector;
  encoder_available : bool;
  cosine : vector → vector → Qc;
  truncate_preview : jsstring → jsstring;
  provider_call :
    provider → jsstring → jsstring → Qc →
    jsstring → jsstring → jsstring → jsstring + jsstring;
  system_prompt : jsstring;
  top_k : nat;
  context_delimiter : jsstring;
  context_budget : nat
}.

Section Pipeline.
Context `{Collaborators}.

(** Modelled from the spec: section 4.1, [encode] fails on empty input or
    when the encoder model is unavailable. *)
Definition encode (text : jsstring) : result vector :=
  if truthy text && encoder_available then Ok (embed text)
  else Err EncodingError.

(** Modelled from the spec: section 4.2, ranking of the hits by similarity,
    descending; an earlier chunk goes before a later one of equal score. *)
Fixpoint insert_hit (h : nat * Qc) (hits : list (nat * Qc)) : list (nat * Qc) :=
  match hits with
  | [] => [h]
  | h' :: hits' =>
      if decide (h'.2 ≤ h.2)%Qc then h :: h' :: hits'
      else h' :: insert_hit h hits'
  end.

Definition rank (hits : list (nat * Qc)) : list (nat * Qc) :=
  foldr insert_hit [] hits.

(** Modelled from the spec: section 4.2, [search]. *)
Definition search (idx : vector_index) (query_vector : vector) (k : nat)
    : result (list (nat * Qc)) :=
  if reachable idx then
    Ok (take k (rank ((λ c, (id c, cosine query_vector (embedding_vector c)))
                        <$> chunks idx)))
  else Err IndexUnavailableError.

(** Hits, and passages, in ranked order: scores never increase along the
    list. *)
Definition hits_ranked (hits : list (nat * Qc)) : Prop :=
  StronglySorted (λ a b, (b.2 ≤ a.2)%Qc) hits.

Definition ranked (passages : list retrieved_passage) : Prop :=
  StronglySorted (λ a b, (relevance_score b ≤ relevance_score a)%Qc)
                 passages.

(** Modelled from the spec: section 4.3, the similarity score clipped to
    [0, 1]. *)
Definition clip01 (s : Qc) : Qc :=
  if decide (s ≤ 0)%Qc then 0%Qc
  else if decide (1 ≤ s)%Qc then 1%Qc else s.

(** Modelled from the spec: section 4.3, the passage of a hit, from the
    metadata of the chunk that the hit names. *)
Definition passage_of_hit (idx : vector_index) (h : nat * Qc)
    : option retrieved_passage :=
  c ← list_find (λ c, id c = h.1) (chunks idx);
  Some {| chunk_id := h.1;
          text_preview := truncate_preview (text c.2);
          relevance_score := clip01 h.2;
          passage_filename := source_filename c.2;
          passage_web_url := chunk_web_url c.2;
          passage_has_watermark := chunk_has_watermark c.2 |}.

(** Modelled from the spec: section 4.3, [retrieve]: encode, search, then
    chunk metadata and the clipped score for each hit. *)
Definition retrieve (idx : vector_index) (query_text : jsstring) (k : nat)
    : result (list retrieved_passage) :=
  let* v := encode query_text in
  let* hits := search idx v k in
  Ok (omap (passage_of_hit idx) hits).

(** Modelled from the spec: section 4.4, one passage of the context block:
    its ordinal in brackets, the originating filename and the preview. *)
Definition entry_text (e : nat * retrieved_passage) : jsstring :=
  js "[" ++ js (pretty e.1) ++ js "] " ++ passage_filename e.2
  ++ [10%N] ++ text_preview e.2.

Fixpoint join (sep : jsstring) (parts : list jsstring) : jsstring :=
  match parts with
  | [] => []
  | [p] => p
  | p :: ps => p ++ sep ++ join sep ps
  end.

(** Modelled from the spec: section 4.4, the passages that fit the budget:
    lower-ranked ones are dropped whole, from the end, until the block
    fits. *)
Fixpoint fit (budget : nat) (fuel : nat) (es : list (nat * retrieved_passage))
    : list (nat * retrieved_passage) :=
  if decide (length (join context_delimiter (entry_text <$> es)) ≤ budget)%nat then es
  else match fuel with
       | O => []
       | S fuel' => fit budget fuel' (take (length es - 1) es)
       end.

(** Modelled from the spec: section 4.4, the passages of the context block
    with their citation ordinals. *)
Definition context_entries (passages : list retrieved_passage)
    : list (nat * retrieved_passage) :=
  fit context_budget (length passages) (imap (λ i p, (S i, p)) passages).

(** Modelled from the spec: section 4.4, [build_context]. *)
Definition build_context (passages : list retrieved_passage) : jsstring :=
  join context_delimiter (entry_text <$> context_entries passages).

(** Modelled from the spec: section 4.5, [generate] for the active
    provider; no provider call is made without a credential. *)
Definition generate (cfg : model_config)
    (system user_message context_block : jsstring) : result jsstring :=
  match api_key cfg (cfg_provider cfg) with
  | None => Err MissingCredentialError
  | Some key =>
      match provider_call (cfg_provider cfg) key (model_name cfg)
              (temperature cfg) system user_message context_block with
      | inr answer => Ok answer
      | inl msg => Err (ProviderRequestError msg)
      end
  end.

(** Modelled from the spec: sections 4.6 and 7, the orchestrator absorbs
    an unavailable index (no passages, then) and no other failure. *)
Definition retrieve_or_degrade (idx : vector_index) (query_text : jsstring)
    : result (list retrieved_passage) :=
  match retrieve idx query_text top_k with
  | Err IndexUnavailableError => Ok []
  | r => r
  end.

(** Modelled from the spec: section 4.6, [answer], steps 1 to 5 and the
    error policy. *)
Definition answer (idx : vector_index) (cfg : model_config)
    (query_text : jsstring) : result rag_response :=
  let* passages := retrieve_or_degrade idx query_text in
  let context :=
    match passages with [] => [] | _ :: _ => build_context passages end in
  let* answer_text := generate cfg system_prompt query_text context in
  Ok {| answer_text := answer_text;
        sources := passages;
        context_used := bool_decide (0 < length passages)%nat;
        num_sources := Z.of_nat (length passages) |}.

End Pipeline.

(** Modelled from the spec: the body of [POST /api/model/config]; every
    field is optional and at most one credential can be given. *)
Record config_update := {
  upd_provider : option provider;
  upd_model_name : option jsstring;
  upd_temperature : option Qc;
  upd_credential : option (provider * jsstring)
}.

(** Modelled from the spec: what [GET /api/model/config] returns; the
    credentials are redacted to presence flags. *)
Record config_view := {
  view_provider : provider;
  view_model_name : jsstring;
  view_temperature : Qc;
  api_key_set : provider → bool
}.

(** Modelled from the spec: section 6, [POST /api/model/config]. *)
Definition update_config (u : config_update) (cfg : model_config)
    : model_config :=
  {| cfg_provider := default (cfg_provider cfg) (upd_provider u);
     model_name := default (model_name cfg) (upd_model_name u);
     temperature := default (temperature cfg) (upd_temperature u);
     api_key := λ p,
       match upd_credential u with
       | Some (p', key) => if decide (p = p') then Some key else api_key cfg p
       | None => api_key cfg p
       end |}.

(** Modelled from the spec: section 6, [GET /api/model/config]. *)
Definition read_config (cfg : model_config) : config_view :=
  {| view_provider := cfg_provider cfg;
     view_model_name := model_name cfg;
     view_temperature := temperature cfg;
     api_key_set := λ p, bool_decide (is_Some (api_key cfg p)) |}.

End Rag.

(** ** The chat view ([Home.vue]) *)

Module Home.
Import JS.

(** One entry of [sources] in the body of [POST /api/chat]. *)
Record source := {
  filename : jsstring;
  preview : jsstring;
  relevance_score : Qc;
  web_url : option jsstring;
  has_watermark : bool
}.

(** [response.data] of a successful call; a field that the JSON body lacks
    reads as [undefined], here [None]. *)
Record chat_data := {
  response : jsstring;
  data_sources : option (list source);
  data_context_used : option bool;
  data_num_sources : option Z
}.

(** [error.response] with its optional [data.detail] string. *)
Record error_response := {
  status : Z;
  detail : option jsstring
}.

(** The rejection value of [axios.post]: [response] is undefined when the
    server was never reached. *)
Record axios_error := {
  err_response : option error_response
}.

Inductive axios_result :=
| Resolved (data : chat_data)
| Rejected (error : axios_error).

Inductive role := user | assistant.

(** An element of [messages]; the properties a message object was built
    without are [None]. *)
Record message := {
  msg_role : role;
  content : jsstring;
  sources : option (list source);
  context_used : option bool;
  num_sources : option Z;
  expandedSources : option (list nat)
}.

(** The reactive state of the component. *)
Record state := {
  messages : list message;
  inputMessage : jsstring;
  isTyping : bool
}.

(** What a handler does, in program order. *)
Inductive effect :=
| PushMessage (m : message)
| SetInputMessage (s : jsstring)
| SetIsTyping (b : bool)
| ScrollToBottom
| PostChat (body_message : jsstring).

Definition apply_effect (st : state) (e : effect) : state :=
  match e with
  | PushMessage m =>
      {| messages := messages st ++ [m];
         inputMessage := inputMessage st; isTyping := isTyping st |}
  | SetInputMessage s =>
      {| messages := messages st; inputMessage := s; isTyping := isTyping st |}
  | SetIsTyping b =>
      {| messages := messages st; inputMessage := inputMessage st;
         isTyping := b |}
  | ScrollToBottom | PostChat _ => st
  end.

Definition run (es : list effect) (st : state) : state :=
  foldl apply_effect st es.

(** The requests a handler sent to [POST /api/chat]. *)
Definition posts (es : list effect) : list jsstring :=
  omap (λ e, match e with PostChat b => Some b | _ => None end) es.

(** [sources] in ranked order. *)
Definition ranked (sources : list source) : Prop :=
  StronglySorted (λ a b, (relevance_score b ≤ relevance_score a)%Qc) sources.

(** [a || b] on a value that may be undefined, for the cases where every
    defined value that is falsy equals the default [b] itself ([false] for a
    boolean, [0] for a number) or none is (an array). *)
Definition or_default {A : Type} (a : option A) (b : A) : A := default b a.

(** The object pushed on success (lines 319 to 326). *)
Definition assistant_message (data : chat_data) : message :=
  {| msg_role := assistant;
     content := response data;
     sources := Some (or_default (data_sources data) []);
     context_used := Some (or_default (data_context_used data) false);
     num_sources := Some (or_default (data_num_sources data) 0);
     expandedSources := Some [] |}.

(** The text built in the [catch] branch (lines 328 to 336). *)
Definition error_text (error : axios_error) : jsstring :=
  let errorMessage := js "I'm having trouble processing your request. " in
  let detail := err_response error ≫= detail in
  if bool_decide (status <$> err_response error = Some 400)
     && from_option (λ d, includes d (js "API_KEY")) false detail
  then errorMessage ++ js "Please configure your AI model API key in Settings."
  else if from_option truthy false detail
  then errorMessage ++ default [] detail
  else errorMessage
       ++ js "Please make sure the backend service is running and configured properly.".

(** The object pushed on failure (lines 338 to 342). *)
Definition error_message (error : axios_error) : message :=
  {| msg_role := assistant;
     content := error_text error;
     sources := Some [];
     context_used := None;
     num_sources := None;
     expandedSources := None |}.

Definition user_message (content : jsstring) : message :=
  {| msg_role := user; content := content; sources := None;
     context_used := None; num_sources := None; expandedSources := None |}.

(** [sendMessage], with the answer of the server to a posted message given
    by [server]. *)
Definition sendMessage (server : jsstring → axios_result)
    (content : jsstring) : list effect :=
  if negb (truthy (trim content)) then []
  else
    [PushMessage (user_message content);
     SetInputMessage [];
     ScrollToBottom;
     SetIsTyping true;
     PostChat content]
    ++ match server content with
       | Resolved data => [PushMessage (assistant_message data)]
       | Rejected error => [PushMessage (error_message error)]
       end
    ++ [SetIsTyping false; ScrollToBottom].

Definition handleSubmit (server : jsstring → axios_result) (st : state)
    : list effect :=
  if truthy (trim (inputMessage st)) && negb (isTyping st)
  then sendMessage server (inputMessage st)
  else [].




End Home.

(** ** The source-document view *)

Module SourceView.
Import JS.

(** The reactive state of the view; [source] is [null] until the route
    parameter has been parsed. *)
Record state := {
  source : option Home.source;
  fullDocument : jsstring;
  loadingDocument : bool
}.

(** The outcome of [GET /api/document/{filename}]: the [content] of the
    body, or a rejected request. *)
Inductive fetch_result :=
| Fetched (content : jsstring)
| Failed.

Inductive effect :=
| SetLoadingDocument (b : bool)
| GetDocument (filename : jsstring)
| SetFullDocument (s : jsstring)
| ScrollToChunk
| LogError.

Definition apply_effect (st : state) (e : effect) : state :=
  match e with
  | SetLoadingDocument b =>
      {| source := source st; fullDocument := fullDocument st;
         loadingDocument := b |}
  | SetFullDocument s =>
      {| source := source st; fullDocument := s;
         loadingDocument := loadingDocument st |}
  | GetDocument _ | ScrollToChunk | LogError => st
  end.

Definition run (es : list effect) (st : state) : state :=
  foldl apply_effect st es.

(** [fetchFullDocument] (lines 143 to 164). *)
Definition fetchFullDocument (server : jsstring → fetch_result) (st : state)
    : list effect :=
  match source st with
  | Some src =>
      if negb (truthy (Home.filename src)) then [SetLoadingDocument false]
      else
        [SetLoadingDocument true; GetDocument (Home.filename src)]
        ++ match server (Home.filename src) with
           | Fetched content => [SetFullDocument content; ScrollToChunk]
           | Failed => [LogError; SetFullDocument (Home.preview src)]
           end
        ++ [SetLoadingDocument false]
  | None => [SetLoadingDocument false]
  end.

Definition amp : N := 38.
Definition lt : N := 60.
Definition gt : N := 62.
Definition dquote : N := 34.
Definition squote : N := 39.

(** [escapeHtml] (lines 166 to 175): the object [map] and the global
    replacement over the class of its five keys. *)
Definition escapeHtml (text : jsstring) : jsstring :=
  let map : gmap N jsstring :=
    {[ amp := js "&amp;";
       lt := js "&lt;";
       gt := js "&gt;";
       dquote := js "&quot;";
       squote := js "&#039;" ]} in
  replaceClass (λ c, bool_decide (c ∈ [amp; lt; gt; dquote; squote]))
               (λ m, map !!! m) text.

(** The replacement as the description of [escapeHtml] words it: each of
    the five characters becomes its HTML entity, any other stays. *)
Definition html_entity (c : N) : jsstring :=
  if (c =? amp)%N then js "&amp;"
  else if (c =? lt)%N then js "&lt;"
  else if (c =? gt)%N then js "&gt;"
  else if (c =? dquote)%N then js "&quot;"
  else if (c =? squote)%N then js "&#039;"
  else [c].

(** [findChunkInDocument] (lines 177 to 197). *)
Definition findChunkInDocument (fullDoc chunk : jsstring) : Z :=
  let chunkTrimmed := trim chunk in
  let index := indexOf fullDoc chunkTrimmed in
  let index :=
    if index =? -1 then indexOf fullDoc (substring chunkTrimmed 0 100)
    else index in
  let index :=
    if index =? -1 then
      let firstLine := trim (splitHead 10 chunkTrimmed) in
      if 20 <? Z.of_nat (length firstLine) then indexOf fullDoc firstLine
      else index
    else index in
  index.

Definition mark_open : jsstring :=
  js "<mark class=" ++ [dquote] ++ js "bg-primary/50 text-gray-100 px-1 rounded"
  ++ [dquote] ++ js " id=" ++ [dquote] ++ js "highlighted-chunk" ++ [dquote]
  ++ js ">".

Definition mark_close : jsstring := js "</mark>".

(** [highlightChunkInOriginal] (lines 199 to 221), reading [source.value]
    from [src]. *)
Definition highlightChunkInOriginal (src : option Home.source)
    (fullDoc : jsstring) : jsstring :=
  if negb (truthy fullDoc)
     || negb (from_option (λ s, truthy (Home.preview s)) false src)
  then escapeHtml fullDoc
  else
    let preview := from_option Home.preview [] src in
    let chunkIndex := findChunkInDocument fullDoc preview in
    if chunkIndex =? -1 then escapeHtml fullDoc
    else
      let chunkLength := Z.of_nat (length (trim preview)) in
      let before := substring fullDoc 0 chunkIndex in
      let chunk := substring fullDoc chunkIndex (chunkIndex + chunkLength) in
      let after := substringFrom fullDoc (chunkIndex + chunkLength) in
      escapeHtml before ++ mark_open ++ escapeHtml chunk ++ mark_close
      ++ escapeHtml after.

End SourceView.

(** ** The settings form ([Settings.vue]) *)

Module Settings.
Import JS.

(** A JSON value of the request and response bodies. *)
Inductive value :=
| Str (s : jsstring)
| Num (q : Qc)
| Bool (b : bool).

(** [formData]. *)
Record form := {
  provider : jsstring;
  model_name : jsstring;
  temperature : Qc;
  api_key : jsstring
}.

(** The body of [GET /api/model/config], kept in [modelConfig]. *)
Record config_body := {
  cfg_provider : jsstring;
  cfg_model_name : jsstring;
  cfg_temperature : Qc;
  api_key_set : bool
}.

(** An entry of the body of [GET /api/model/providers]. *)
Record provider_entry := {
  entry_id : jsstring;
  entry_name : jsstring;
  models : list jsstring
}.

Inductive notice :=
| Success (text : jsstring)
| Failure (text : jsstring).

Record state := {
  modelConfig : config_body;
  providers : list provider_entry;
  formData : form;
  saving : bool;
  message : option notice
}.

(** The object [payload] of [saveConfig] (lines 206 to 220). *)
Definition payload (formData : form) : gmap string value :=
  let payload : gmap string value :=
    {[ "provider" := Str (provider formData);
       "model_name" := Str (model_name formData);
       "temperature" := Num (temperature formData) ]} in
  if truthy (api_key formData) then
    if bool_decide (provider formData = js "openai")
    then <["openai_api_key" := Str (api_key formData)]> payload
    else if bool_decide (provider formData = js "anthropic")
    then <["anthropic_api_key" := Str (api_key formData)]> payload
    else if bool_decide (provider formData = js "gemini")
    then <["google_api_key" := Str (api_key formData)]> payload
    else payload
  else payload.

Definition credential_fields : list string :=
  ["openai_api_key"; "anthropic_api_key"; "google_api_key"].

(** The server as the form sees it, with a state [S] of its own: the
    answer to the POST (the [detail] of a failure on the left) with the
    state it leaves, and the answers to the two GETs ([None] for a rejected
    request). *)
Record server (S : Type) := {
  post_config : gmap string value → S → (option jsstring + ()) * S;
  get_config : S → option config_body;
  get_providers : S → option (list provider_entry)
}.
Arguments post_config {S} _ _ _.
Arguments get_config {S} _ _.
Arguments get_providers {S} _ _.

Inductive effect :=
| SetSaving (b : bool)
| SetMessage (m : option notice)
| PostConfig (body : gmap string value)
| GetConfig
| GetProviders
| SetModelConfig (c : config_body)
| SetProviders (ps : list provider_entry)
| SetFormData (f : form)
| LogError.

Definition apply_effect (st : state) (e : effect) : state :=
  match e with
  | SetSaving b =>
      {| modelConfig := modelConfig st; providers := providers st;
         formData := formData st; saving := b; message := message st |}
  | SetMessage m =>
      {| modelConfig := modelConfig st; providers := providers st;
         formData := formData st; saving := saving st; message := m |}
  | SetModelConfig c =>
      {| modelConfig := c; providers := providers st;
         formData := formData st; saving := saving st; message := message st |}
  | SetProviders ps =>
      {| modelConfig := modelConfig st; providers := ps;
         formData := formData st; saving := saving st; message := message st |}
  | SetFormData f =>
      {| modelConfig := modelConfig st; providers := providers st;
         formData := f; saving := saving st; message := message st |}
  | PostConfig _ | GetConfig | GetProviders | LogError => st
  end.

Definition run (es : list effect) (st : state) : state :=
  foldl apply_effect st es.

(** [loadConfig] (lines 180 to 199); [Promise.all] rejects when one of the
    two requests does. *)
Definition loadConfig {S : Type} (srv : server S) (s : S) : list effect :=
  [GetConfig; GetProviders]
  ++ match get_config srv s, get_providers srv s with
     | Some config, Some provs =>
         [SetModelConfig config;
          SetProviders provs;
          SetFormData {| provider := cfg_provider config;
                         model_name := cfg_model_name config;
                         temperature := cfg_temperature config;
                         api_key := [] |}]
     | _, _ => [LogError]
     end.

(** [saveConfig] (lines 201 to 238): the effects on the form and the state
    the server is left in. *)
Definition saveConfig {S : Type} (srv : server S) (st : state) (s : S)
    : list effect * S :=
  let payload := payload (formData st) in
  let (outcome, s') := post_config srv payload s in
  ([SetSaving true; SetMessage None; PostConfig payload]
   ++ match outcome with
      | inr () =>
          [SetMessage (Some (Success (js
             "Configuration saved successfully! The changes will take effect immediately.")))]
          ++ loadConfig srv s'
      | inl detail =>
          [SetMessage (Some (Failure
             (if from_option truthy false detail then default [] detail
              else js "Failed to save configuration")))]
      end
   ++ [SetSaving false],
   s').

(** Modelled from the spec: the provider names of the HTTP interface, as
    the form compares them. *)
Definition provider_id (p : Rag.provider) : jsstring :=
  match p with
  | Rag.openai => js "openai"
  | Rag.anthropic => js "anthropic"
  | Rag.gemini => js "gemini"
  end.

(** Modelled from the spec: the provider that a name of the HTTP interface
    stands for. *)
Definition provider_of_id (s : jsstring) : option Rag.provider :=
  if bool_decide (s = js "openai") then Some Rag.openai
  else if bool_decide (s = js "anthropic") then Some Rag.anthropic
  else if bool_decide (s = js "gemini") then Some Rag.gemini
  else None.

(** The credential field of a provider, as [saveConfig] names them. *)
Definition credential_field (p : Rag.provider) : string :=
  match p with
  | Rag.openai => "openai_api_key"
  | Rag.anthropic => "anthropic_api_key"
  | Rag.gemini => "google_api_key"
  end.

(** An optional field of a body: absent, of the expected type, or
    ill-typed (the outer [None]). *)
Definition opt_field {A : Type} (read : value → option A)
    (body : gmap string value) (k : string) : option (option A) :=
  match body !! k with
  | None => Some None
  | Some v => Some <$> read v
  end.

Definition as_str (v : value) : option jsstring :=
  match v with Str s => Some s | _ => None end.

Definition as_num (v : value) : option Qc :=
  match v with Num q => Some q | _ => None end.

(** Modelled from the spec: the credential of a body of
    [POST /api/model/config]: none, one, or a rejected body with several
    or with one that is not a string. *)
Definition decode_credential (body : gmap string value)
    : option (option (Rag.provider * jsstring)) :=
  match omap (λ p, (p ,.) <$> body !! credential_field p)
             [Rag.openai; Rag.anthropic; Rag.gemini] with
  | [] => Some None
  | [(p, v)] => (λ key, Some (p, key)) <$> as_str v
  | _ => None
  end.

(** Modelled from the spec: reading a body of [POST /api/model/config]
    into an update of the Model Configuration; the endpoint itself is not
    among the sources. *)
Definition decode_update (body : gmap string value)
    : option Rag.config_update :=
  p ← opt_field (λ v, as_str v ≫= provider_of_id) body "provider";
  m ← opt_field as_str body "model_name";
  t ← opt_field as_num body "temperature";
  c ← decode_credential body;
  Some {| Rag.upd_provider := p; Rag.upd_model_name := m;
          Rag.upd_temperature := t; Rag.upd_credential := c |}.

(** Modelled from the spec: the body of [GET /api/model/config]; the flag
    is the one of the active provider, as the back end's README shows it. *)
Definition encode_view (v : Rag.config_view) : config_body :=
  {| cfg_provider := provider_id (Rag.view_provider v);
     cfg_model_name := Rag.view_model_name v;
     cfg_temperature := Rag.view_temperature v;
     api_key_set := Rag.api_key_set v (Rag.view_provider v) |}.

(** Modelled from the spec: the configuration endpoints over the stored
    Model Configuration: a well-formed POST is applied at once, any other is
    rejected and changes nothing. *)
Definition config_server (provs : list provider_entry)
    : server Rag.model_config :=
  {| post_config := λ body cfg,
       match decode_update body with
       | Some u => (inr (), Rag.update_config u cfg)
       | None => (inl None, cfg)
       end;
     get_config := λ cfg, Some (encode_view (Rag.read_config cfg));
     get_providers := λ _, Some provs |}.

End Settings.

(** ** The chat endpoint as the chat view sees it *)

Module Api.

(** Modelled from the spec: section 6, a Retrieved Passage as an entry of
    [sources] in the body. *)
Definition source_of_passage (p : Rag.retrieved_passage) : Home.source :=
  {| Home.filename := Rag.passage_filename p;
     Home.preview := Rag.text_preview p;
     Home.relevance_score := Rag.relevance_score p;
     Home.web_url := Rag.passage_web_url p;
     Home.has_watermark := Rag.passage_has_watermark p |}.

(** Modelled from the spec: section 6, the body of a successful
    [POST /api/chat], field by field from the RAG Response. *)
Definition chat_body (r : Rag.rag_response) : Home.chat_data :=
  {| Home.response := Rag.answer_text r;
     Home.data_sources := Some (source_of_passage <$> Rag.sources r);
     Home.data_context_used := Some (Rag.context_used r);
     Home.data_num_sources := Some (Rag.num_sources r) |}.

End Api.

(** ** The conversation store ([db.js]) *)

Module Db.
Import JS.

(** A record of the table, without its key. *)
Record conversation := {
  title : jsstring;
  messages : option (list Home.message);
  createdAt : jsstring;
  updatedAt : jsstring
}.

(** The Dexie table [conversations] with its auto-incremented primary key
    [++id]: the rows under their keys, and the next key of the generator,
    which starts at 1 and is never handed out twice. *)
Record table := {
  rows : gmap N conversation;
  next_id : N
}.

Definition empty : table := {| rows := ∅; next_id := 1 |}.

(** The generator is past its start, and every key in use was handed out
    by it. *)
Definition well_formed (db : table) : Prop :=
  (0 < next_id db)%N
  ∧ ∀ id, is_Some (rows db !! id) → (0 < id < next_id db)%N.

(** [db.conversations.add(conversation)]: the new key and the table. *)
Definition add (c : conversation) (db : table) : N * table :=
  (next_id db,
   {| rows := <[next_id db := c]> (rows db);
      next_id := N.succ (next_id db) |}).

(** [db.conversations.update(id, changes)]: a missing key is left alone. *)
Definition update (id : N) (changes : conversation → conversation)
    (db : table) : table :=
  {| rows := alter changes id (rows db); next_id := next_id db |}.

(** [createConversation(title = 'New Conversation')], with the two readings
    of the clock; the result is [{ id, ...conversation }]. *)
Definition createConversation (title : option jsstring)
    (created updated : jsstring) (db : table)
    : (N * conversation) * table :=
  let conversation :=
    {| title := default (js "New Conversation") title;
       messages := Some [];
       createdAt := created;
       updatedAt := updated |} in
  let (id, db') := add conversation db in
  ((id, conversation), db').

Definition getConversation (id : N) (db : table) : option conversation :=
  rows db !! id.

Definition updateConversation (id : N) (messages : list Home.message)
    (now : jsstring) (db : table) : table :=
  update id (λ c, {| title := title c; messages := Some messages;
                     createdAt := createdAt c; updatedAt := now |}) db.

Definition updateTitle (id : N) (title : jsstring) (now : jsstring)
    (db : table) : table :=
  update id (λ c, {| title := title; messages := Db.messages c;
                     createdAt := createdAt c; updatedAt := now |}) db.

Definition deleteConversation (id : N) (db : table) : table :=
  {| rows := delete id (rows db); next_id := next_id db |}.

Definition clearAll (db : table) : table :=
  {| rows := ∅; next_id := next_id db |}.

(** The order of string keys in an index: by code units. *)
Fixpoint compare_strings (a b : jsstring) : comparison :=
  match a, b with
  | [], [] => Eq
  | [], _ :: _ => Lt
  | _ :: _, [] => Gt
  | x :: a', y :: b' =>
      match (x ?= y)%N with
      | Eq => compare_strings a' b'
      | c => c
      end
  end.

(** The order of the index on [updatedAt]: by that key, then by primary
    key. *)
Definition index_le (x y : N * conversation) : bool :=
  match compare_strings (updatedAt x.2) (updatedAt y.2) with
  | Lt => true
  | Gt => false
  | Eq => (x.1 <=? y.1)%N
  end.

Fixpoint index_insert (x : N * conversation) (l : list (N * conversation))
    : list (N * conversation) :=
  match l with
  | [] => [x]
  | y :: l' => if index_le x y then x :: y :: l' else y :: index_insert x l'
  end.

(** [orderBy('updatedAt')]: the rows in the order of the index. *)
Definition orderBy_updatedAt (db : table) : list (N * conversation) :=
  foldr index_insert [] (map_to_list (rows db)).

(** [getAllConversations]: [orderBy('updatedAt').reverse().toArray()]. *)
Definition getAllConversations (db : table) : list (N * conversation) :=
  reverse (orderBy_updatedAt db).

End Db.

(** ** Conversations in the chat view ([Home.vue]) *)

Module Conversations.
Import JS.

(** [xs.indexOf(x)] on an array, counting from [i]; [-1] when absent. *)
Fixpoint indexOf_from (i : Z) (xs : list nat) (x : nat) : Z :=
  match xs with
  | [] => -1
  | y :: ys => if decide (y = x) then i else indexOf_from (i + 1) ys x
  end.

(** The body of [toggleSource] on the array [expandedSources]:
    [splice(idx, 1)] when the index is found, [push] otherwise. *)
Definition toggle (expandedSources : list nat) (sourceIndex : nat)
    : list nat :=
  let idx := indexOf_from 0 expandedSources sourceIndex in
  if -1 <? idx then delete (Z.to_nat idx) expandedSources
  else expandedSources ++ [sourceIndex].

(** [toggleSource] (lines 349 to 361); [None] is the [TypeError] of reading
    a property of [messages.value[messageIndex]] when it is undefined. *)
Definition toggleSource (messageIndex sourceIndex : nat) (st : Home.state)
    : option Home.state :=
  message ← Home.messages st !! messageIndex;
  let expandedSources := default [] (Home.expandedSources message) in
  Some {| Home.messages :=
            <[messageIndex :=
                {| Home.msg_role := Home.msg_role message;
                   Home.content := Home.content message;
                   Home.sources := Home.sources message;
                   Home.context_used := Home.context_used message;
                   Home.num_sources := Home.num_sources message;
                   Home.expandedSources :=
                     Some (toggle expandedSources sourceIndex) |}]>
            (Home.messages st);
          Home.inputMessage := Home.inputMessage st;
          Home.isTyping := Home.isTyping st |}.


(** Whether the card of source [idx] shows its full preview (line 100). *)
Definition expanded (message : Home.message) (idx : nat) : bool :=
  from_option (λ xs, bool_decide (idx ∈ xs)) false
              (Home.expandedSources message).

(** The chat view with the conversation it shows. *)
Record session := {
  view : Home.state;
  currentConversationId : option N
}.

(** Truthiness of the id: [null] and [0] are falsy. *)
Definition truthy_id (id : option N) : bool :=
  from_option (λ n, negb (n =? 0)%N) false id.

(** The title made from the first message (lines 225 to 228). *)
Definition smartTitle (firstMessage : jsstring) : jsstring :=
  if 50 <? Z.of_nat (length firstMessage)
  then substring firstMessage 0 50 ++ js "..."
  else firstMessage.

(** The watcher on [messages] (lines 216 to 240), with the clock readings
    of its two writes; what it does to the store (the sidebar is asked to
    reload its list afterwards). *)
Definition watch (s : session) (now1 now2 : jsstring) (db : Db.table)
    : Db.table :=
  let newMessages := Home.messages (view s) in
  match currentConversationId s with
  | Some id =>
      if truthy_id (Some id) && (0 <? Z.of_nat (length newMessages)) then
        let db := Db.updateConversation id newMessages now1 db in
        match newMessages with
        | [firstMessage] =>
            Db.updateTitle id (smartTitle (Home.content firstMessage)) now2 db
        | _ => db
        end
      else db
  | None => db
  end.



End Conversations.

(** ** The sidebar ([Sidebar.vue]) *)

Module Sidebar.
Import JS.

Record state := {
  currentChatId : option N;
  sidebarOpen : bool;
  conversations : list (N * Db.conversation);
  searchQuery : jsstring;
  isLoading : bool
}.

(** What the sidebar tells the rest of the application. *)
Inductive event :=
| NewChat (id : N)
| LoadChat (id : N)
| RouterPush (path : jsstring).

(** [formatDate] (lines 136 to 149) on the two instants in milliseconds
    (of a date string that parses); the quotients are whole numbers of
    minutes, hours and days, as [Math.floor] leaves them, and the last case
    is left to the locale. *)
Definition formatDate (toLocaleDateString : Z → jsstring) (now date : Z)
    : jsstring :=
  let diffInMs := now - date in
  let diffInMins := diffInMs `div` 60000 in
  let diffInHours := diffInMs `div` 3600000 in
  let diffInDays := diffInMs `div` 86400000 in
  if diffInMins <? 1 then js "Just now"
  else if diffInMins <? 60 then js (pretty diffInMins) ++ js "m ago"
  else if diffInHours <? 24 then js (pretty diffInHours) ++ js "h ago"
  else if diffInDays <? 7 then js (pretty diffInDays) ++ js "d ago"
  else toLocaleDateString date.

Definition loadConversations (db : Db.table) (st : state) : state :=
  {| currentChatId := currentChatId st;
     sidebarOpen := sidebarOpen st;
     conversations := Db.getAllConversations db;
     searchQuery := searchQuery st;
     isLoading := isLoading st |}.

Definition toggleSidebar (st : state) : state :=
  {| currentChatId := currentChatId st;
     sidebarOpen := negb (sidebarOpen st);
     conversations := conversations st;
     searchQuery := searchQuery st;
     isLoading := isLoading st |}.

Definition set_currentChatId (id : N) (st : state) : state :=
  {| currentChatId := Some id;
     sidebarOpen := sidebarOpen st;
     conversations := conversations st;
     searchQuery := searchQuery st;
     isLoading := isLoading st |}.

(** The navigation both handlers start with: to the home route unless the
    current route is the home route already. *)
Definition go_home (path : jsstring) : list event :=
  if bool_decide (path ≠ js "/") then [RouterPush (js "/")] else [].

(** [createNewChat] (lines 159 to 170), on the route [path] and with the two
    clock readings of [createConversation]. *)
Definition createNewChat (created updated path : jsstring)
    (st : state) (db : Db.table) : state * Db.table * list event :=
  let '((id, _), db') := Db.createConversation None created updated db in
  (loadConversations db' (set_currentChatId id st),
   db',
   go_home path ++ [NewChat id]).

(** [selectChat] (lines 172 to 183). *)
Definition selectChat (id : N) (path : jsstring) (st : state)
    : state * list event :=
  (set_currentChatId id st, go_home path ++ [LoadChat id]).

(** [deleteChat] (lines 185 to 194), with the answer to [confirm]. *)
Definition deleteChat (id : N) (confirmed : bool)
    (created updated path : jsstring) (st : state) (db : Db.table)
    : state * Db.table * list event :=
  if confirmed then
    let db' := Db.deleteConversation id db in
    let st' := loadConversations db' st in
    if bool_decide (currentChatId st' = Some id)
    then createNewChat created updated path st' db'
    else (st', db', [])
  else (st, db, []).

End Sidebar.

(** ** The first application shell, with its in-memory chat history *)

Module App.
Import JS.

(** The numbers that chat ids can be: [Math.max()] of no argument is
    [-Infinity]. *)
Inductive number :=
| NegInfinity
| Num (z : Z).

#[global] Instance number_eq_dec : EqDecision number.
Proof. solve_decision. Defined.

Definition max (a b : number) : number :=
  match a, b with
  | NegInfinity, _ => b
  | _, NegInfinity => a
  | Num x, Num y => Num (Z.max x y)
  end.

(** [Math.max(...xs)]. *)
Definition Math_max (xs : list number) : number := foldr max NegInfinity xs.

Definition plus_one (a : number) : number :=
  match a with
  | NegInfinity => NegInfinity
  | Num x => Num (x + 1)
  end.

Record chat := {
  id : number;
  title : jsstring;
  date : jsstring
}.

Record state := {
  sidebarOpen : bool;
  currentChatId : number;
  chatHistory : list chat
}.

Definition initial : state :=
  {| sidebarOpen := true;
     currentChatId := Num 1;
     chatHistory :=
       [ {| id := Num 1; title := js "Historical records query";
            date := js "Today" |};
         {| id := Num 2; title := js "Architecture documents search";
            date := js "Yesterday" |};
         {| id := Num 3; title := js "Municipal archives 1900-1920";
            date := js "2 days ago" |};
         {| id := Num 4; title := js "Gothic Quarter buildings";
            date := js "3 days ago" |};
         {| id := Num 5; title := js "Civil registry documents";
            date := js "Last week" |} ] |}.

Definition toggleSidebar (st : state) : state :=
  {| sidebarOpen := negb (sidebarOpen st);
     currentChatId := currentChatId st;
     chatHistory := chatHistory st |}.

(** [createNewChat]: the new chat goes first ([unshift]) and is selected. *)
Definition createNewChat (st : state) : state :=
  let newId := plus_one (Math_max (id <$> chatHistory st)) in
  {| sidebarOpen := sidebarOpen st;
     currentChatId := newId;
     chatHistory :=
       {| id := newId; title := js "New conversation";
          date := js "Just now" |} :: chatHistory st |}.

Definition selectChat (id : number) (st : state) : state :=
  {| sidebarOpen := sidebarOpen st;
     currentChatId := id;
     chatHistory := chatHistory st |}.

(** What the user can do: the three buttons of the template; a chat is
    selected by clicking its entry in the history. *)
Inductive step : state → state → Prop :=
| step_toggle st : step st (toggleSidebar st)
| step_create st : step st (createNewChat st)
| step_select st c : c ∈ chatHistory st → step st (selectChat (id c) st).

Inductive reachable : state → Prop :=
| reachable_initial : reachable initial
| reachable_step st st' : reachable st → step st st' → reachable st'.


End App.

(** ** The archives view ([Archives.vue]) *)

Module Archives.
Import JS.

Record archive := {
  id : Z;
  title : jsstring;
  description : jsstring;
  category : jsstring;
  date : jsstring
}.

Record state := {
  searchQuery : jsstring;
  archives : list archive;
  loading : bool;
  error : option jsstring
}.

Inductive effect :=
| SetLoading (b : bool)
| SetError (e : option jsstring)
| GetArchives (search : jsstring)
| SetArchives (l : list archive)
| LogError.

Definition apply_effect (st : state) (e : effect) : state :=
  match e with
  | SetLoading b =>
      {| searchQuery := searchQuery st; archives := archives st;
         loading := b; error := error st |}
  | SetError e =>
      {| searchQuery := searchQuery st; archives := archives st;
         loading := loading st; error := e |}
  | SetArchives l =>
      {| searchQuery := searchQuery st; archives := l;
         loading := loading st; error := error st |}
  | GetArchives _ | LogError => st
  end.

Definition run (es : list effect) (st : state) : state :=
  foldl apply_effect st es.

(** The records shown when the back end does not answer. *)
Definition mock_data : list archive :=
  [ {| id := 1;
       title := js "Historical Records 1900-1920";
       description :=
         js "Collection of municipal records from early 20th century Barcelona";
       category := js "Municipal";
       date := js "1900-1920" |};
    {| id := 2;
       title := js "Architectural Plans";
       description :=
         js "Original architectural drawings of Gothic Quarter buildings";
       category := js "Architecture";
       date := js "1850-1900" |} ].

(** [fetchArchives]; [server] answers the GET for a search text with the
    body, or not at all. *)
Definition fetchArchives (server : jsstring → option (list archive))
    (st : state) : list effect :=
  [SetLoading true; SetError None; GetArchives (searchQuery st)]
  ++ match server (searchQuery st) with
     | Some data => [SetArchives data]
     | None =>
         [SetError (Some (js
            "Failed to fetch archives. Make sure the backend is running."));
          LogError;
          SetArchives mock_data]
     end
  ++ [SetLoading false].

End Archives.

(** ** Testing the connection ([Settings.vue]) *)

Module SettingsTest.
Import JS Settings.

(** [availableModels] (lines 175 to 178). *)
Definition availableModels (st : state) : list jsstring :=
  match list_find (λ p, entry_id p = provider (formData st))
                  (providers st) with
  | Some (_, provider) => models provider
  | None => []
  end.

(** The form with the flag of the Test button. *)
Record test_state := {
  form_state : state;
  testing : bool
}.

Inductive test_effect :=
| Form (e : effect)
| SetTesting (b : bool)
| PostChat (message : jsstring).

Definition apply_test_effect (st : test_state) (e : test_effect)
    : test_state :=
  match e with
  | Form e =>
      {| form_state := apply_effect (form_state st) e; testing := testing st |}
  | SetTesting b => {| form_state := form_state st; testing := b |}
  | PostChat _ => st
  end.

Definition run_test (es : list test_effect) (st : test_state) : test_state :=
  foldl apply_test_effect st es.

Definition check_mark : N := 10003.

(** [testConnection] (lines 240 to 265): the configuration is saved first,
    then one chat request is sent; [chat] is the answer to it (the [detail]
    of a failure on the left). *)
Definition testConnection {S : Type} (srv : server S)
    (chat : S → option jsstring + ()) (st : test_state) (s : S)
    : list test_effect * S :=
  let (saved, s') :=
    saveConfig srv (run [SetMessage None] (form_state st)) s in
  ([SetTesting true; Form (SetMessage None)]
   ++ (Form <$> saved)
   ++ [PostChat (js "Test connection")]
   ++ match chat s' with
      | inr () =>
          [Form (SetMessage (Some (Success (
             [check_mark]
             ++ js " Connection successful! The AI model is working correctly."))))]
      | inl detail =>
          [Form (SetMessage (Some (Failure
             (if from_option truthy false detail then default [] detail
              else js "Connection test failed. Please check your API key."))))]
      end
   ++ [SetTesting false],
   s').

End SettingsTest.

(** ** A small deployment to evaluate the pipeline on *)

Module Samples.
Import JS.

Definition dot (u v : Rag.vector) : Qc :=
  foldr Qcplus 0%Qc (zip_with Qcmult u v).

(** One-dimensional embeddings, the dot product for the similarity, and a
    provider that answers with the context it was given. *)
Definition collaborators : Rag.Collaborators :=
  {| Rag.embed := λ _, [1%Qc];
     Rag.encoder_available := true;
     Rag.cosine := dot;
     Rag.truncate_preview := take 300;
     Rag.provider_call := λ _ _ _ _ _ _ context, inr (js "Answer. " ++ context);
     Rag.system_prompt := js "Answer only from the provided context.";
     Rag.top_k := 3;
     Rag.context_delimiter := [10; 10]%N;
     Rag.context_budget := 4000 |}.

Definition chunk (i : nat) (name body : string) (score : Qc)
    : Rag.document_chunk :=
  {| Rag.id := i;
     Rag.source_filename := js name;
     Rag.page_number := None;
     Rag.text := js body;
     Rag.embedding_vector := [score];
     Rag.chunk_web_url := None;
     Rag.chunk_has_watermark := false |}.

(** The corpus of the design document's example. *)
Definition index : Rag.vector_index :=
  {| Rag.reachable := true;
     Rag.chunks :=
       [chunk 1 "Trade Union Records" "Minutes of the union." (Q2Qc (42 # 100));
        chunk 2 "Architectural Plans" "Plans of the Gothic Quarter."
              (Q2Qc (91 # 100))] |}.


Definition config : Rag.model_config :=
  {| Rag.cfg_provider := Rag.gemini;
     Rag.model_name := js "gemini-2.5-flash";
     Rag.temperature := Q2Qc (7 # 10);
     Rag.api_key := λ p,
       match p with Rag.gemini => Some (js "secret") | _ => None end |}.


Definition query : jsstring := js "What architectural plans are available?".

(** A chat with one question and its answer. *)
Definition reply : Home.message :=
  Home.assistant_message
    {| Home.response := js "See the plans.";
       Home.data_sources := None;
       Home.data_context_used := None;
       Home.data_num_sources := None |}.

Definition chat_state : Home.state :=
  {| Home.messages := [Home.user_message query; reply];
     Home.inputMessage := [];
     Home.isTyping := false |}.

(** A settings form with a key typed in, and two servers without a state:
    one that rejects every request, one that accepts the POST and answers
    the GETs with a fixed configuration. *)
Definition settings_state : Settings.state :=
  {| Settings.modelConfig :=
       {| Settings.cfg_provider := js "gemini";
          Settings.cfg_model_name := js "gemini-2.5-flash";
          Settings.cfg_temperature := Q2Qc (7 # 10);
          Settings.api_key_set := false |};
     Settings.providers := [];
     Settings.formData :=
       {| Settings.provider := js "openai";
          Settings.model_name := js "gpt-4o-mini";
          Settings.temperature := Q2Qc (8 # 10);
          Settings.api_key := js "sk-1" |};
     Settings.saving := false;
     Settings.message := None |}.

Definition rejecting_server : Settings.server () :=
  {| Settings.post_config := λ _ s, (inl (Some (js "Invalid provider")), s);
     Settings.get_config := λ _, None;
     Settings.get_providers := λ _, None |}.

Definition accepting_server : Settings.server () :=
  {| Settings.post_config := λ _ s, (inr (), s);
     Settings.get_config := λ _,
       Some {| Settings.cfg_provider := js "openai";
               Settings.cfg_model_name := js "gpt-4o-mini";
               Settings.cfg_temperature := Q2Qc (8 # 10);
               Settings.api_key_set := true |};
     Settings.get_providers := λ _, Some [] |}.

End Samples.

(** * Properties *)

(** ** Strings *)

Section StringFacts.
Import JS.

Lemma trimStart_blank (s : jsstring) :
  Forall (λ c, isWhiteSpace c = true) s → trimStart s = [].
Proof.
  induction 1 as [|c s Hc _ IH]; simpl; [done|].
  by rewrite Hc.
Qed.

Lemma trim_blank (s : jsstring) :
  Forall (λ c, isWhiteSpace c = true) s → trim s = [].
Proof.
  intros Hs. unfold trim, trimEnd.
  by rewrite (trimStart_blank s Hs).
Qed.

Lemma truthy_true (s : jsstring) : truthy s = true ↔ s ≠ [].
Proof. destruct s; simpl; split; congruence. Qed.

Lemma clamp_nonneg (len : nat) (i : Z) :
  0 ≤ i → clamp len i = Nat.min (Z.to_nat i) len.
Proof. unfold clamp. lia. Qed.


Lemma substring_prefix (s : jsstring) (i : Z) :
  0 ≤ i → substring s 0 i = take (Z.to_nat i) s.
Proof.
  intros Hi. unfold substring. rewrite !clamp_nonneg by lia.
  replace (Nat.min (Z.to_nat 0) (length s)) with 0%nat by lia.
  rewrite Nat.min_0_l, Nat.max_0_l, Nat.sub_0_r, drop_0.
  destruct (decide (Z.to_nat i ≤ length s)%nat).
  - by rewrite Nat.min_l by lia.
  - rewrite Nat.min_r by lia. by rewrite !take_ge by lia.
Qed.



Lemma startsWith_prefix (s sub : jsstring) :
  startsWith s sub = true → ∃ post, s = sub ++ post.
Proof.
  revert s. induction sub as [|c sub IH]; intros s; simpl.
  - by exists s.
  - destruct s as [|d s]; [done|].
    intros [Hc Hs]%andb_true_iff. apply N.eqb_eq in Hc as ->.
    destruct (IH s Hs) as [post ->]. by exists post.
Qed.

(** A found index is the offset of an occurrence. *)
Lemma indexOf_from_found (i : Z) (s sub : jsstring) :
  0 ≤ i → indexOf_from i s sub ≠ -1 →
  ∃ pre post, s = pre ++ sub ++ post
              ∧ indexOf_from i s sub = i + Z.of_nat (length pre).
Proof.
  revert i. induction s as [|c s IH]; intros i Hi; cbn [indexOf_from].
  - destruct (startsWith [] sub) eqn:Hs; [|done].
    intros _. apply startsWith_prefix in Hs as [post ->].
    exists [], post. split; [done|]. simpl. lia.
  - destruct (startsWith (c :: s) sub) eqn:Hs.
    + intros _. apply startsWith_prefix in Hs as [post ->].
      exists [], post. split; [done|]. simpl. lia.
    + intros Hf. destruct (IH (i + 1)) as (pre & post & -> & Hj);
        [lia | done |].
      exists (c :: pre), post. split; [done|]. rewrite Hj. simpl. lia.
Qed.

Lemma indexOf_found (s sub : jsstring) :
  indexOf s sub ≠ -1 →
  ∃ pre post, s = pre ++ sub ++ post
              ∧ indexOf s sub = Z.of_nat (length pre).
Proof.
  intros Hf. by destruct (indexOf_from_found 0 s sub) as (pre & post & ? & ?);
    [lia | done | exists pre, post].
Qed.

End StringFacts.

(** ** The chat view *)

Section HomeFacts.
Import JS Home.

(** The message [sendMessage] leaves at the end of [messages] once the
    request has settled. *)
Lemma sendMessage_last (server : jsstring → axios_result)
    (content : jsstring) (st : state) :
  trim content ≠ [] →
  last (messages (run (sendMessage server content) st))
  = Some match server content with
         | Resolved data => assistant_message data
         | Rejected error => error_message error
         end
  ∧ isTyping (run (sendMessage server content) st) = false.
Proof.
  intros Hc. apply truthy_true in Hc.
  unfold sendMessage. rewrite Hc. simpl.
  destruct (server content); simpl; split; try done; apply last_snoc.
Qed.

Lemma posts_sendMessage (server : jsstring → axios_result)
    (content body : jsstring) :
  body ∈ posts (sendMessage server content) →
  body = content ∧ trim content ≠ [].
Proof.
  unfold sendMessage.
  destruct (truthy (trim content)) eqn:Hc; simpl.
  - apply truthy_true in Hc.
    destruct (server content); simpl; intros Hb;
      apply list_elem_of_singleton in Hb; done.
  - intros Hb. by apply elem_of_nil in Hb.
Qed.

(** C9: on an input that is empty or all whitespace [sendMessage] does
    nothing at all: no effect is performed, so no request is posted, the
    state (the message list included) is unchanged and the typing indicator
    is never assigned.  Hence every message that [sendMessage] or
    [handleSubmit] posts to the chat endpoint has a non-empty trimmed text,
    and an empty query never leaves the chat view. *)
Theorem sendMessage_blank_noop (server : jsstring → axios_result)
    (content : jsstring) (st : state) :
  Forall (λ c, isWhiteSpace c = true) content →
  sendMessage server content = []
  ∧ posts (sendMessage server content) = []
  ∧ run (sendMessage server content) st = st
  ∧ (∀ b, SetIsTyping b ∉ sendMessage server content)
  ∧ (∀ text body, body ∈ posts (sendMessage server text) →
       body ≠ [] ∧ trim body ≠ [])
  ∧ (∀ st' body, body ∈ posts (handleSubmit server st') →
       body ≠ [] ∧ trim body ≠ []).
Proof.
  intros Hblank.
  assert (Hnil : sendMessage server content = []).
  { unfold sendMessage. by rewrite (trim_blank content Hblank). }
  assert (Hposts : ∀ text body, body ∈ posts (sendMessage server text) →
            body ≠ [] ∧ trim body ≠ []).
  { intros text body [-> Ht]%posts_sendMessage. split; [|done].
    intros ->. by apply Ht. }
  assert (Hsubmit : ∀ st' body, body ∈ posts (handleSubmit server st') →
            body ≠ [] ∧ trim body ≠ []).
  { intros st' body. unfold handleSubmit.
    destruct (truthy (trim (inputMessage st')) && negb (isTyping st'));
      [by intros ?%Hposts | by intros ?%elem_of_nil]. }
  rewrite Hnil. repeat (split; [done|]). split; [|done].
  intros b Hb. by apply elem_of_nil in Hb.
Qed.

Lemma sendMessage_blank_noop_witness :
  sendMessage (λ _, Rejected {| err_response := None |}) [32; 9; 10]%N = [].
Proof.
  refine (proj1 (sendMessage_blank_noop _ [32; 9; 10]%N
            {| messages := []; inputMessage := []; isTyping := false |} _)).
  repeat (constructor; [vm_compute; reflexivity|]). constructor.
Defined.

(** C4, as the code has it: a failed chat request with HTTP status 400 and a
    detail string containing [API_KEY] appends the assistant message that
    asks to configure the API key in Settings; any other non-empty detail
    string (one containing [API_KEY] under another status included) is
    appended to the processing-trouble text. *)
Theorem error_text_by_detail (server : jsstring → axios_result)
    (content : jsstring) (st : state) (error : axios_error)
    (resp : error_response) (d : jsstring) :
  trim content ≠ [] →
  server content = Rejected error →
  err_response error = Some resp →
  detail resp = Some d →
  last (messages (run (sendMessage server content) st))
  = Some (error_message error)
  ∧ msg_role (error_message error) = assistant
  ∧ (status resp = 400 → includes d (js "API_KEY") = true →
     Home.content (error_message error)
     = js "I'm having trouble processing your request. "
       ++ js "Please configure your AI model API key in Settings.")
  ∧ (status resp ≠ 400 ∨ includes d (js "API_KEY") = false → d ≠ [] →
     Home.content (error_message error)
     = js "I'm having trouble processing your request. " ++ d).
Proof.
  intros Hc Hs Hr Hd.
  destruct (sendMessage_last server content st Hc) as [Hlast _].
  rewrite Hs in Hlast.
  split; [done|]. split; [done|].
  unfold error_message, error_text; cbn [Home.content].
  rewrite Hr; cbn [mbind option_bind fmap option_fmap option_map].
  rewrite Hd; cbn [from_option default].
  split.
  - intros -> ->. by rewrite bool_decide_eq_true_2.
  - intros Hno Hne. apply truthy_true in Hne. rewrite Hne.
    destruct Hno as [Hst | ->].
    + rewrite bool_decide_eq_false_2; [done|]. by intros [= ?].
    + by rewrite andb_false_r.
Qed.

Lemma error_text_by_detail_witness :
  Home.content (error_message
    {| err_response :=
         Some {| status := 400; detail := Some (js "OPENAI_API_KEY is not set") |} |})
  = js "I'm having trouble processing your request. "
    ++ js "Please configure your AI model API key in Settings.".
Proof.
  refine (proj1 (proj2 (proj2 (error_text_by_detail
            (λ _, Rejected {| err_response :=
               Some {| status := 400;
                       detail := Some (js "OPENAI_API_KEY is not set") |} |})
            (js "hello")
            {| messages := []; inputMessage := []; isTyping := false |}
            _ _ (js "OPENAI_API_KEY is not set") _ eq_refl eq_refl eq_refl)))
          eq_refl _).
  - vm_compute. discriminate.
  - vm_compute. reflexivity.
Defined.

(** C4, as stated, fails: under status 500 a detail string containing
    [API_KEY] is not answered with the Settings hint but echoed. *)
Lemma error_text_api_key_status_500 :
  let error :=
    {| err_response :=
         Some {| status := 500;
                 detail := Some (js "OPENAI_API_KEY is not set") |} |} in
  includes (js "OPENAI_API_KEY is not set") (js "API_KEY") = true
  ∧ Home.content (error_message error)
    ≠ js "I'm having trouble processing your request. "
      ++ js "Please configure your AI model API key in Settings."
  ∧ Home.content (error_message error)
    = js "I'm having trouble processing your request. "
      ++ js "OPENAI_API_KEY is not set".
Proof. vm_compute. repeat split; discriminate. Qed.

(** An empty detail string is not echoed either: the text falls through to
    the hint about the back end. *)
Lemma error_text_empty_detail :
  Home.content (error_message
    {| err_response := Some {| status := 500; detail := Some [] |} |})
  = js "I'm having trouble processing your request. "
    ++ js "Please make sure the backend service is running and configured properly.".
Proof. vm_compute. reflexivity. Qed.

End HomeFacts.

(** ** The source-document view *)

Section SourceViewFacts.
Import JS SourceView.

Lemma escapeHtml_entity (c : N) :
  (if bool_decide (c ∈ [amp; lt; gt; dquote; squote])
   then ({[ amp := js "&amp;"; lt := js "&lt;"; gt := js "&gt;";
            dquote := js "&quot;"; squote := js "&#039;" ]}
           : gmap N jsstring) !!! c
   else [c])
  = html_entity c.
Proof.
  unfold html_entity.
  destruct (N.eqb_spec c amp) as [->|?]; [by vm_compute|].
  destruct (N.eqb_spec c lt) as [->|?]; [by vm_compute|].
  destruct (N.eqb_spec c gt) as [->|?]; [by vm_compute|].
  destruct (N.eqb_spec c dquote) as [->|?]; [by vm_compute|].
  destruct (N.eqb_spec c squote) as [->|?]; [by vm_compute|].
  rewrite bool_decide_eq_false_2; [done|].
  rewrite !elem_of_cons, elem_of_nil. tauto.
Qed.

Lemma escapeHtml_bind (text : jsstring) :
  escapeHtml text = text ≫= html_entity.
Proof.
  unfold escapeHtml, replaceClass.
  induction text as [|c text IH]; [done|].
  cbn [mbind list_bind]. by rewrite escapeHtml_entity, IH.
Qed.





(** X24: when the trimmed preview occurs in the document, the wrapper is around
    its first occurrence. *)
Lemma highlight_exact_match (s : Home.source) (fullDoc : jsstring) :
  fullDoc ≠ [] →
  Home.preview s ≠ [] →
  indexOf fullDoc (trim (Home.preview s)) ≠ -1 →
  ∃ before after,
    fullDoc = before ++ trim (Home.preview s) ++ after
    ∧ Z.of_nat (length before) = indexOf fullDoc (trim (Home.preview s))
    ∧ highlightChunkInOriginal (Some s) fullDoc
      = escapeHtml before ++ mark_open ++ escapeHtml (trim (Home.preview s))
        ++ mark_close ++ escapeHtml after.
Proof.
  intros Hdoc%truthy_true Hprev%truthy_true Hfound.
  destruct (indexOf_found _ _ Hfound) as (before & after & Heq & Hidx).
  exists before, after. split; [done|]. split; [done|].
  unfold highlightChunkInOriginal. cbn [from_option].
  rewrite Hdoc, Hprev. cbn [negb orb].
  assert (Hnot : (Z.of_nat (length before) =? -1) = false) by lia.
  assert (Hfind : findChunkInDocument fullDoc (Home.preview s)
                  = Z.of_nat (length before)).
  { unfold findChunkInDocument. lazy zeta. rewrite Hidx.
    rewrite Hnot. lazy iota. by rewrite Hnot. }
  rewrite Hfind, Hnot.
  set (chunk := trim (Home.preview s)) in *.
  assert (Hlen : length fullDoc
                 = (length before + (length chunk + length after))%nat)
    by (by rewrite Heq, !length_app).
  unfold substring, substringFrom.
  rewrite !clamp_nonneg by lia. rewrite Hlen.
  replace (Z.to_nat 0 `min` (length before
             + (length chunk + length after)))%nat with 0%nat by lia.
  replace (Z.to_nat (Z.of_nat (length before)) `min`
             (length before + (length chunk + length after)))%nat
    with (length before) by lia.
  replace (Z.to_nat (Z.of_nat (length before) + Z.of_nat (length chunk)) `min`
             (length before + (length chunk + length after)))%nat
    with (length before + length chunk)%nat by lia.
  rewrite Nat.min_0_l, Nat.max_0_l, Nat.sub_0_r, drop_0.
  replace ((length before `max` (length before + length chunk)
            - length before `min` (length before + length chunk)))%nat
    with (length chunk) by lia.
  replace (length before `min` (length before + length chunk))%nat
    with (length before) by lia.
  rewrite Heq.
  rewrite take_app_length, drop_app_length, take_app_length.
  by rewrite (app_assoc before chunk after), drop_app_length'
    by (rewrite length_app; lia).
Qed.

(** The pane for a preview that carries markup: the document's own tags
    come out escaped, inside and outside the wrapper. *)
Example highlight_markup :
  highlightChunkInOriginal
    (Some {| Home.filename := js "plans.txt";
             Home.preview := js " <b>bold</b> ";
             Home.relevance_score := 0%Qc;
             Home.web_url := None;
             Home.has_watermark := false |})
    (js "see <b>bold</b> <i>text</i>")
  = js "see " ++ mark_open ++ js "&lt;b&gt;bold&lt;/b&gt;" ++ mark_close
    ++ js " &lt;i&gt;text&lt;/i&gt;".
Proof. vm_compute. reflexivity. Qed.

(** C8: when the request for the full document fails, the view shows the
    passage preview as the full document and leaves the loading state; the
    request was issued, and nothing stays pending. *)
Theorem fetchFullDocument_fallback (server : jsstring → fetch_result)
    (st : state) (src : Home.source) :
  source st = Some src →
  Home.filename src ≠ [] →
  server (Home.filename src) = Failed →
  GetDocument (Home.filename src) ∈ fetchFullDocument server st
  ∧ fullDocument (run (fetchFullDocument server st) st) = Home.preview src
  ∧ loadingDocument (run (fetchFullDocument server st) st) = false
  ∧ source (run (fetchFullDocument server st) st) = Some src.
Proof.
  intros Hsrc Hname%truthy_true Hfail.
  unfold fetchFullDocument. rewrite Hsrc, Hname, Hfail. simpl.
  split; [set_solver|done].
Qed.

Lemma fetchFullDocument_fallback_witness :
  fullDocument
    (run (fetchFullDocument (λ _, Failed)
            {| source := Some {| Home.filename := js "plans.txt";
                                 Home.preview := js "Gothic Quarter";
                                 Home.relevance_score := 0%Qc;
                                 Home.web_url := None;
                                 Home.has_watermark := false |};
               fullDocument := [];
               loadingDocument := true |})
         {| source := Some {| Home.filename := js "plans.txt";
                              Home.preview := js "Gothic Quarter";
                              Home.relevance_score := 0%Qc;
                              Home.web_url := None;
                              Home.has_watermark := false |};
            fullDocument := [];
            loadingDocument := true |})
  = js "Gothic Quarter".
Proof.
  refine (proj1 (proj2 (fetchFullDocument_fallback (λ _, Failed)
            {| source := Some {| Home.filename := js "plans.txt";
                                 Home.preview := js "Gothic Quarter";
                                 Home.relevance_score := 0%Qc;
                                 Home.web_url := None;
                                 Home.has_watermark := false |};
               fullDocument := [];
               loadingDocument := true |}
            _ eq_refl _ eq_refl))).
  vm_compute. discriminate.
Defined.

End SourceViewFacts.

(** ** The settings form *)

Section SettingsFacts.
Import JS Settings.

(** The two shapes of the request body: the three plain fields, or these
    and the credential field of the selected provider. *)
Lemma payload_shape (fd : form) :
  let base : gmap string value :=
    {[ "provider" := Str (provider fd);
       "model_name" := Str (model_name fd);
       "temperature" := Num (temperature fd) ]} in
  payload fd = base
  ∨ (api_key fd ≠ []
     ∧ ∃ p, provider fd = provider_id p
            ∧ payload fd = <[credential_field p := Str (api_key fd)]> base).
Proof.
  intros base. unfold payload. fold base.
  destruct (truthy (api_key fd)) eqn:Hkey; [|by left].
  apply truthy_true in Hkey.
  repeat case_bool_decide; [right..|by left];
    (split; [done|]).
  - by exists Rag.openai.
  - by exists Rag.anthropic.
  - by exists Rag.gemini.
Qed.

Lemma credential_fields_inv (k : string) :
  k ∈ credential_fields →
  k = "openai_api_key" ∨ k = "anthropic_api_key" ∨ k = "google_api_key".
Proof.
  unfold credential_fields. rewrite !elem_of_cons, elem_of_nil. tauto.
Qed.

(** C7: the request body that [saveConfig] builds has the fields
    [provider], [model_name] and [temperature] and nothing else but
    credential fields; it has at most one credential field, a credential
    field is there only when the API-key input is non-empty, and then it is
    the field of the selected provider and holds the input. *)
Theorem payload_fields (fd : form) :
  payload fd !! "provider" = Some (Str (provider fd))
  ∧ payload fd !! "model_name" = Some (Str (model_name fd))
  ∧ payload fd !! "temperature" = Some (Num (temperature fd))
  ∧ (∀ k, is_Some (payload fd !! k) →
       k ∈ ["provider"; "model_name"; "temperature"] ++ credential_fields)
  ∧ (∀ k1 k2, k1 ∈ credential_fields → k2 ∈ credential_fields →
       is_Some (payload fd !! k1) → is_Some (payload fd !! k2) → k1 = k2)
  ∧ (∀ k, k ∈ credential_fields → is_Some (payload fd !! k) →
       api_key fd ≠ []
       ∧ payload fd !! k = Some (Str (api_key fd))
       ∧ ∃ p, provider fd = provider_id p ∧ k = credential_field p).
Proof.
  assert (Hcred : ∀ k, k ∈ credential_fields → is_Some (payload fd !! k) →
            api_key fd ≠ []
            ∧ payload fd !! k = Some (Str (api_key fd))
            ∧ ∃ p, provider fd = provider_id p ∧ k = credential_field p).
  { intros k Hk%credential_fields_inv Hsome.
    destruct (payload_shape fd) as [Heq | (Hkey & p & Hp & Heq)];
      rewrite Heq in Hsome |- *.
    - destruct Hk as [-> | [-> | ->]]; by destruct Hsome.
    - split; [done|].
      destruct (decide (credential_field p = k)) as [<-|Hne].
      + rewrite lookup_insert_eq. eauto.
      + rewrite lookup_insert_ne in Hsome by done.
        destruct Hk as [-> | [-> | ->]]; by destruct Hsome. }
  destruct (payload_shape fd) as [Heq | (Hkey & p & Hp & Heq)].
  - rewrite Heq. repeat (split; [done|]).
    split; [|split; [|by rewrite <-Heq]].
    + intros k [v Hv].
      rewrite !elem_of_app, !elem_of_cons.
      destruct (decide (k = "provider")); [tauto|].
      destruct (decide (k = "model_name")); [tauto|].
      destruct (decide (k = "temperature")); [tauto|].
      by rewrite !lookup_insert_ne, lookup_singleton_ne in Hv.
    + intros k1 k2 Hk1%credential_fields_inv _ [v Hv].
      destruct Hk1 as [-> | [-> | ->]]; done.
  - rewrite Heq.
    split; [by destruct p|]. split; [by destruct p|]. split; [by destruct p|].
    split; [|split; [|by rewrite <-Heq]].
    + intros k [v Hv].
      rewrite !elem_of_app, !elem_of_cons.
      destruct (decide (k = "provider")); [tauto|].
      destruct (decide (k = "model_name")); [tauto|].
      destruct (decide (k = "temperature")); [tauto|].
      destruct (decide (k = credential_field p)) as [->|];
        [right; destruct p; repeat constructor|].
      by rewrite !lookup_insert_ne, lookup_singleton_ne in Hv.
    + rewrite <-Heq. intros k1 k2 Hk1 Hk2 Hs1 Hs2.
      destruct (Hcred k1 Hk1 Hs1) as (_ & _ & p1 & Hp1 & ->).
      destruct (Hcred k2 Hk2 Hs2) as (_ & _ & p2 & Hp2 & ->).
      rewrite Hp1 in Hp2. by destruct p1, p2.
Qed.

Example payload_gemini_with_key :
  payload {| provider := js "gemini"; model_name := js "gemini-2.5-flash";
             temperature := Q2Qc (7 # 10); api_key := js "secret" |}
  = {[ "provider" := Str (js "gemini");
       "model_name" := Str (js "gemini-2.5-flash");
       "temperature" := Num (Q2Qc (7 # 10));
       "google_api_key" := Str (js "secret") ]}.
Proof. by vm_compute. Qed.

End SettingsFacts.

(** ** Saving and reloading the model configuration *)

Section ConfigRoundTrip.
Import JS Settings.

Lemma decode_payload (X : Rag.provider) (Y : jsstring) (T : Qc)
    (key : jsstring) :
  decode_update (payload {| provider := provider_id X; model_name := Y;
                            temperature := T; api_key := key |})
  = Some {| Rag.upd_provider := Some X;
            Rag.upd_model_name := Some Y;
            Rag.upd_temperature := Some T;
            Rag.upd_credential :=
              if truthy key then Some (X, key) else None |}.
Proof. destruct X, key; by vm_compute. Qed.

Lemma post_config_server (provs : list provider_entry)
    (body : gmap string value) (cfg : Rag.model_config) :
  post_config (config_server provs) body cfg
  = match decode_update body with
    | Some u => (inr (), Rag.update_config u cfg)
    | None => (inl None, cfg)
    end.
Proof. reflexivity. Qed.

(** Two stored configurations that agree on provider, model, temperature
    and on which credentials are present are read alike, whatever the
    credentials are. *)
Lemma get_config_presence_only (provs : list provider_entry)
    (cfg1 cfg2 : Rag.model_config) :
  Rag.cfg_provider cfg1 = Rag.cfg_provider cfg2 →
  Rag.model_name cfg1 = Rag.model_name cfg2 →
  Rag.temperature cfg1 = Rag.temperature cfg2 →
  (∀ p, is_Some (Rag.api_key cfg1 p) ↔ is_Some (Rag.api_key cfg2 p)) →
  get_config (config_server provs) cfg1
  = get_config (config_server provs) cfg2.
Proof.
  intros Hp Hm Ht Hk. cbn. unfold encode_view. cbn.
  rewrite Hp, Hm, Ht. do 2 f_equal. by apply bool_decide_ext.
Qed.

(** C5: saving provider [X], model name [Y] and temperature [T] through the
    form and reading the configuration back gives exactly [X], [Y] and [T],
    in the store, in the body of the GET and in the reloaded form; the GET
    depends on the credentials only through their presence, and the form's
    key input comes back empty. *)
Theorem config_round_trip (X : Rag.provider) (Y : jsstring) (T : Qc)
    (key : jsstring) (cfg : Rag.model_config)
    (provs ps : list provider_entry) (mc : config_body) (sv : bool)
    (msg : option notice) :
  let st :=
    {| modelConfig := mc; providers := ps;
       formData := {| provider := provider_id X; model_name := Y;
                      temperature := T; api_key := key |};
       saving := sv; message := msg |} in
  let saved := saveConfig (config_server provs) st cfg in
  Rag.view_provider (Rag.read_config saved.2) = X
  ∧ Rag.view_model_name (Rag.read_config saved.2) = Y
  ∧ Rag.view_temperature (Rag.read_config saved.2) = T
  ∧ get_config (config_server provs) saved.2
    = Some {| cfg_provider := provider_id X; cfg_model_name := Y;
              cfg_temperature := T;
              api_key_set := bool_decide (is_Some (Rag.api_key saved.2 X)) |}
  ∧ modelConfig (run saved.1 st)
    = {| cfg_provider := provider_id X; cfg_model_name := Y;
         cfg_temperature := T;
         api_key_set := bool_decide (is_Some (Rag.api_key saved.2 X)) |}
  ∧ formData (run saved.1 st)
    = {| provider := provider_id X; model_name := Y; temperature := T;
         api_key := [] |}
  ∧ (∀ cfg1 cfg2,
       Rag.cfg_provider cfg1 = Rag.cfg_provider cfg2 →
       Rag.model_name cfg1 = Rag.model_name cfg2 →
       Rag.temperature cfg1 = Rag.temperature cfg2 →
       (∀ p, is_Some (Rag.api_key cfg1 p) ↔ is_Some (Rag.api_key cfg2 p)) →
       get_config (config_server provs) cfg1
       = get_config (config_server provs) cfg2).
Proof.
  intros st saved. subst saved st.
  unfold saveConfig. cbn [formData].
  rewrite post_config_server, decode_payload.
  cbn -[payload].
  repeat (split; [done|]).
  apply (get_config_presence_only provs).
Qed.

(** The example of the back end's README: OpenAI, [gpt-4o-mini], 0.8 and a
    key, saved over a Gemini configuration without keys. *)
Example config_round_trip_readme :
  let st :=
    {| modelConfig := {| cfg_provider := js "gemini";
                         cfg_model_name := js "gemini-2.5-flash";
                         cfg_temperature := Q2Qc (7 # 10);
                         api_key_set := false |};
       providers := [];
       formData := {| provider := js "openai"; model_name := js "gpt-4o-mini";
                      temperature := Q2Qc (8 # 10); api_key := js "sk-1" |};
       saving := false; message := None |} in
  let cfg :=
    {| Rag.cfg_provider := Rag.gemini;
       Rag.model_name := js "gemini-2.5-flash";
       Rag.temperature := Q2Qc (7 # 10);
       Rag.api_key := λ _, None |} in
  let saved := saveConfig (config_server []) st cfg in
  modelConfig (run saved.1 st)
  = {| cfg_provider := js "openai"; cfg_model_name := js "gpt-4o-mini";
       cfg_temperature := Q2Qc (8 # 10); api_key_set := true |}
  ∧ formData (run saved.1 st)
    = {| provider := js "openai"; model_name := js "gpt-4o-mini";
         temperature := Q2Qc (8 # 10); api_key := [] |}.
Proof. by vm_compute. Qed.

End ConfigRoundTrip.

(** ** The retrieval pipeline *)

Section PipelineFacts.
Import JS Rag.
Context `{Collaborators}.

Lemma Qcle_of_not_le (a b : Qc) : ¬ (a ≤ b)%Qc → (b ≤ a)%Qc.
Proof. intros Hn. by apply Qclt_le_weak, Qcnot_le_lt. Qed.

Lemma clip01_mono (a b : Qc) : (a ≤ b)%Qc → (clip01 a ≤ clip01 b)%Qc.
Proof.
  intros Hab. unfold clip01.
  assert (H01 : (0 ≤ 1)%Qc) by done.
  repeat case_decide;
    eauto using Qcle_refl, Qcle_trans, Qcle_of_not_le.
Qed.

Lemma clip01_range (s : Qc) : (0 ≤ clip01 s)%Qc ∧ (clip01 s ≤ 1)%Qc.
Proof.
  unfold clip01.
  assert (H01 : (0 ≤ 1)%Qc) by done.
  repeat case_decide; eauto using Qcle_refl, Qcle_of_not_le.
Qed.

Lemma insert_hit_elem (h x : nat * Qc) (hits : list (nat * Qc)) :
  x ∈ insert_hit h hits → x = h ∨ x ∈ hits.
Proof.
  induction hits as [|h' hits IH]; simpl.
  - intros ->%list_elem_of_singleton. by left.
  - case_decide.
    + intros [->|Hx]%elem_of_cons; [by left | by right].
    + intros [->|Hx]%elem_of_cons; [right; left|].
      destruct (IH Hx) as [->|?]; [by left | right; by right].
Qed.

Lemma insert_hit_ranked (h : nat * Qc) (hits : list (nat * Qc)) :
  hits_ranked hits → hits_ranked (insert_hit h hits).
Proof.
  unfold hits_ranked.
  induction 1 as [|h' hits Hs IH Hall]; simpl.
  - by repeat constructor.
  - case_decide as Hle.
    + constructor; [by constructor|].
      constructor; [done|].
      eapply Forall_impl; [exact Hall|].
      intros x Hx. simpl in Hx. by eapply Qcle_trans.
    + constructor; [done|].
      apply Forall_forall. intros x [->|Hx]%insert_hit_elem.
      * by apply Qcle_of_not_le.
      * by eapply Forall_forall in Hall.
Qed.

Lemma rank_ranked (hits : list (nat * Qc)) : hits_ranked (rank hits).
Proof.
  unfold rank. induction hits as [|h hits IH]; simpl.
  - constructor.
  - by apply insert_hit_ranked.
Qed.

Lemma StronglySorted_take {A : Type} (R : relation A) (l : list A) (n : nat) :
  StronglySorted R l → StronglySorted R (take n l).
Proof.
  intros Hl. revert n.
  induction Hl as [|x l Hs IH Hall]; intros [|n]; simpl; try constructor.
  - apply IH.
  - by apply Forall_take.
Qed.

Lemma omap_length_le {A B : Type} (f : A → option B) (l : list A) :
  (length (omap f l) ≤ length l)%nat.
Proof.
  induction l as [|x l IH]; csimpl; [lia|].
  destruct (f x); csimpl; lia.
Qed.

(** What [search] returns is ranked and no longer than asked for. *)
Lemma search_ranked (idx : vector_index) (v : vector) (k : nat)
    (hits : list (nat * Qc)) :
  search idx v k = Ok hits → hits_ranked hits ∧ (length hits ≤ k)%nat.
Proof.
  unfold search. destruct (reachable idx); [|done].
  intros [= <-]. split.
  - apply StronglySorted_take, rank_ranked.
  - rewrite length_take. lia.
Qed.

Lemma passage_of_hit_score (idx : vector_index) (h : nat * Qc)
    (p : retrieved_passage) :
  passage_of_hit idx h = Some p → relevance_score p = clip01 h.2.
Proof.
  unfold passage_of_hit.
  destruct (list_find _ _) as [c|]; simpl; [|done].
  by intros [= <-].
Qed.

Lemma passages_ranked (idx : vector_index) (hits : list (nat * Qc)) :
  hits_ranked hits → ranked (omap (passage_of_hit idx) hits).
Proof.
  unfold hits_ranked, ranked.
  induction 1 as [|h hits Hs IH Hall]; simpl; [constructor|].
  destruct (passage_of_hit idx h) as [p|] eqn:Hp; [|done].
  constructor; [done|].
  apply Forall_forall. intros p' (h' & Hh' & Hp')%list_elem_of_omap.
  rewrite (passage_of_hit_score _ _ _ Hp), (passage_of_hit_score _ _ _ Hp').
  apply clip01_mono. by eapply Forall_forall in Hall.
Qed.

Lemma retrieve_ranked (idx : vector_index) (q : jsstring) (k : nat)
    (passages : list retrieved_passage) :
  retrieve idx q k = Ok passages →
  ranked passages ∧ (length passages ≤ k)%nat.
Proof.
  unfold retrieve.
  destruct (encode q) as [v|]; simpl; [|done].
  destruct (search idx v k) as [hits|] eqn:Hs; simpl; [|done].
  intros [= <-]. apply search_ranked in Hs as [Hr Hl]. split.
  - by apply passages_ranked.
  - etrans; [apply omap_length_le|done].
Qed.

(** The response of [answer] carries the passages that retrieval gave, or
    none when the index was unavailable. *)
Lemma answer_inv (idx : vector_index) (cfg : model_config) (q : jsstring)
    (r : rag_response) :
  answer idx cfg q = Ok r →
  retrieve_or_degrade idx q = Ok (sources r)
  ∧ context_used r = bool_decide (0 < length (sources r))%nat
  ∧ num_sources r = Z.of_nat (length (sources r)).
Proof.
  unfold answer.
  destruct (retrieve_or_degrade idx q) as [passages|]; simpl; [|done].
  destruct (generate _ _ _ _) as [t|]; simpl; [|done].
  by intros [= <-].
Qed.

Lemma retrieve_or_degrade_ranked (idx : vector_index) (q : jsstring)
    (passages : list retrieved_passage) :
  retrieve_or_degrade idx q = Ok passages →
  ranked passages ∧ (length passages ≤ top_k)%nat.
Proof.
  unfold retrieve_or_degrade.
  destruct (retrieve idx q top_k) as [ps|e] eqn:Hr.
  - intros [= <-]. by apply retrieve_ranked in Hr.
  - destruct e; try done. intros [= <-]. split; [constructor | simpl; lia].
Qed.

End PipelineFacts.

(** ** Responses, ranking, degradation and citations *)

Section ResponseFacts.
Import JS Rag.
Context `{Collaborators}.

(** C1: in every response of the pipeline [num_sources] is the length of
    [sources] and [context_used] is true exactly when [num_sources] is
    positive; the assistant message that [sendMessage] stores for the
    delivered body has the same three fields with the same relation. *)
Theorem response_counts (idx : vector_index) (cfg : model_config)
    (q : jsstring) (r : rag_response) :
  answer idx cfg q = Ok r →
  num_sources r = Z.of_nat (length (sources r))
  ∧ (context_used r = true ↔ 0 < num_sources r)
  ∧ (∀ (server : jsstring → Home.axios_result) (st : Home.state),
       trim q ≠ [] →
       server q = Home.Resolved (Api.chat_body r) →
       ∃ (m : Home.message) (ss : list Home.source) (n : Z) (used : bool),
         last (Home.messages (Home.run (Home.sendMessage server q) st))
         = Some m
         ∧ Home.sources m = Some ss
         ∧ Home.num_sources m = Some n
         ∧ Home.context_used m = Some used
         ∧ length ss = length (sources r)
         ∧ n = Z.of_nat (length ss)
         ∧ (used = true ↔ 0 < n)).
Proof.
  intros (_ & Hused & Hnum)%answer_inv.
  assert (Hiff : context_used r = true ↔ 0 < num_sources r).
  { rewrite Hused, Hnum, bool_decide_eq_true. lia. }
  split; [done|]. split; [done|].
  intros server st Hq Hs.
  destruct (sendMessage_last server q st Hq) as [Hlast _].
  rewrite Hs in Hlast.
  eexists _, _, _, _. split; [exact Hlast|].
  cbn. repeat (split; [reflexivity|]).
  rewrite length_fmap. split; [done|]. split; [by rewrite Hnum|].
  exact Hiff.
Qed.

(** C2: the sources of a response are in non-increasing order of
    [relevance_score] and no more than [top_k], in the response and in the
    delivered body, as the hits of the index client are. *)
Theorem sources_ranked (idx : vector_index) (cfg : model_config)
    (q : jsstring) (r : rag_response) :
  answer idx cfg q = Ok r →
  ranked (sources r)
  ∧ (length (sources r) ≤ top_k)%nat
  ∧ Home.ranked (default [] (Home.data_sources (Api.chat_body r)))
  ∧ (∀ v k hits, search idx v k = Ok hits →
       hits_ranked hits ∧ (length hits ≤ k)%nat).
Proof.
  intros (Hr & _ & _)%answer_inv.
  apply retrieve_or_degrade_ranked in Hr as [Hr Hl].
  split; [done|]. split; [done|]. split.
  - cbn. unfold Home.ranked.
    eapply StronglySorted_fmap; [|exact Hr]. by intros x y Hxy.
  - intros v k hits. apply search_ranked.
Qed.

(** The example of the design document: the chunk with similarity 0.91
    comes first, with that score, among at most three sources. *)
Example answer_architectural_plans :
  match @answer Samples.collaborators Samples.index Samples.config
          Samples.query with
  | Ok r =>
      (passage_filename <$> sources r)
      = [js "Architectural Plans"; js "Trade Union Records"]
      ∧ (bool_decide ((relevance_score <$> sources r)
                      = [Q2Qc (91 # 100); Q2Qc (42 # 100)])) = true
      ∧ num_sources r = 2
  | Err _ => False
  end.
Proof. by vm_compute. Qed.






(** The context block of the example: ordinal 1 on the best passage. *)
Example context_block_architectural_plans :
  @build_context Samples.collaborators
    [{| chunk_id := 2; text_preview := js "Plans.";
        relevance_score := Q2Qc (91 # 100);
        passage_filename := js "Architectural Plans";
        passage_web_url := None; passage_has_watermark := false |};
     {| chunk_id := 1; text_preview := js "Minutes.";
        relevance_score := Q2Qc (42 # 100);
        passage_filename := js "Trade Union Records";
        passage_web_url := None; passage_has_watermark := false |}]
  = js "[1] Architectural Plans" ++ [10%N] ++ js "Plans." ++ [10; 10]%N
    ++ js "[2] Trade Union Records" ++ [10%N] ++ js "Minutes.".
Proof. by vm_compute. Qed.

End ResponseFacts.

(** ** The pipeline on the sample deployment *)

Section SampleRuns.
Import JS Rag.

Lemma response_counts_witness :
  ∃ r, @answer Samples.collaborators Samples.index Samples.config
         Samples.query = Ok r
       ∧ num_sources r = 2
       ∧ context_used r = true.
Proof.
  eexists. split; [vm_compute; reflexivity|].
  split.
  - refine (eq_trans (proj1 (@response_counts Samples.collaborators
        Samples.index Samples.config Samples.query _ _)) _);
      vm_compute; reflexivity.
  - vm_compute; reflexivity.
Defined.

Lemma sources_ranked_witness :
  ∃ r, @answer Samples.collaborators Samples.index Samples.config
         Samples.query = Ok r
       ∧ ranked (sources r).
Proof.
  eexists. split; [vm_compute; reflexivity|].
  refine (proj1 (@sources_ranked Samples.collaborators
            Samples.index Samples.config Samples.query _ _)).
  vm_compute; reflexivity.
Defined.


End SampleRuns.

(** ** Expanding and collapsing source cards *)

Section ToggleFacts.
Import JS Conversations.

Lemma indexOf_from_absent (i : Z) (xs : list nat) (x : nat) :
  x ∉ xs → indexOf_from i xs x = -1.
Proof.
  revert i. induction xs as [|y ys IH]; intros i Hx; simpl; [done|].
  apply not_elem_of_cons in Hx as [Hxy Hx].
  rewrite decide_False by done. by apply IH.
Qed.

Lemma indexOf_from_present (i : Z) (xs : list nat) (x : nat) :
  x ∈ xs →
  ∃ pre post, xs = pre ++ x :: post ∧ (x ∉ pre)
              ∧ indexOf_from i xs x = i + Z.of_nat (length pre).
Proof.
  revert i. induction xs as [|y ys IH]; intros i Hx; simpl.
  - by apply elem_of_nil in Hx.
  - destruct (decide (y = x)) as [->|Hne].
    + exists [], ys. split; [done|]. split; [apply not_elem_of_nil|].
      simpl. lia.
    + apply elem_of_cons in Hx as [->|Hx]; [done|].
      destruct (IH (i + 1) Hx) as (pre & post & -> & Hpre & ->).
      exists (y :: pre), post. split; [done|].
      split; [apply not_elem_of_cons; split; [congruence|done]|].
      simpl. lia.
Qed.

Lemma toggle_absent (xs : list nat) (x : nat) :
  x ∉ xs → toggle xs x = xs ++ [x].
Proof. intros Hx. unfold toggle. by rewrite indexOf_from_absent. Qed.

Lemma toggle_present (xs : list nat) (x : nat) :
  x ∈ xs →
  ∃ pre post, xs = pre ++ x :: post ∧ (x ∉ pre) ∧ toggle xs x = pre ++ post.
Proof.
  intros Hx. unfold toggle.
  destruct (indexOf_from_present 0 xs x Hx) as (pre & post & -> & Hpre & ->).
  exists pre, post. split; [done|]. split; [done|].
  assert ((-1 <? 0 + Z.of_nat (length pre)) = true) as ->
    by (apply Z.ltb_lt; lia).
  replace (Z.to_nat (0 + Z.of_nat (length pre))) with (length pre) by lia.
  by rewrite delete_middle.
Qed.

(** On an array without repetitions, [toggle] flips the membership of the
    index, keeps the others and keeps the array without repetitions. *)
Lemma toggle_flips (xs : list nat) (x : nat) :
  NoDup xs →
  NoDup (toggle xs x)
  ∧ (x ∈ toggle xs x ↔ x ∉ xs)
  ∧ (∀ y, y ≠ x → y ∈ toggle xs x ↔ y ∈ xs).
Proof.
  intros Hnd. destruct (decide (x ∈ xs)) as [Hx|Hx].
  - destruct (toggle_present xs x Hx) as (pre & post & -> & Hpre & ->).
    apply NoDup_app in Hnd as (Hnd1 & Hdisj & Hnd2).
    apply NoDup_cons in Hnd2 as [Hpost Hnd2].
    split; [|split].
    + apply NoDup_app. split; [done|]. split; [|done].
      intros y Hy Hy'. apply (Hdisj y Hy). by right.
    + rewrite elem_of_app. split; [tauto|]. intros Hn. exfalso. apply Hn.
      set_solver.
    + intros y Hy. rewrite !elem_of_app, elem_of_cons. tauto.
  - rewrite (toggle_absent xs x Hx). split; [|split].
    + apply NoDup_app. split; [done|]. split; [|apply NoDup_singleton].
      intros y Hy ->%list_elem_of_singleton. done.
    + rewrite elem_of_app, list_elem_of_singleton. tauto.
    + intros y Hy. rewrite elem_of_app, list_elem_of_singleton. tauto.
Qed.



Lemma expanded_toggle (m : Home.message) (xs : list nat) (k : nat) :
  expanded {| Home.msg_role := Home.msg_role m;
              Home.content := Home.content m;
              Home.sources := Home.sources m;
              Home.context_used := Home.context_used m;
              Home.num_sources := Home.num_sources m;
              Home.expandedSources := Some xs |} k
  = bool_decide (k ∈ xs).
Proof. done. Qed.

(** X4: [toggleSource] on the card [sourceIndex] of message [messageIndex]
    flips whether that card is expanded and changes nothing else: the other
    cards of the message, its text and sources, the other messages, the
    input and the typing flag stay; the array stays without repetitions. *)
Theorem toggleSource_flips (messageIndex sourceIndex : nat)
    (st : Home.state) (m : Home.message) :
  Home.messages st !! messageIndex = Some m →
  NoDup (default [] (Home.expandedSources m)) →
  ∃ st' m',
    toggleSource messageIndex sourceIndex st = Some st'
    ∧ Home.messages st' !! messageIndex = Some m'
    ∧ expanded m' sourceIndex = negb (expanded m sourceIndex)
    ∧ (∀ k, k ≠ sourceIndex → expanded m' k = expanded m k)
    ∧ NoDup (default [] (Home.expandedSources m'))
    ∧ Home.content m' = Home.content m
    ∧ Home.sources m' = Home.sources m
    ∧ Home.msg_role m' = Home.msg_role m
    ∧ length (Home.messages st') = length (Home.messages st)
    ∧ (∀ j, j ≠ messageIndex →
         Home.messages st' !! j = Home.messages st !! j)
    ∧ Home.inputMessage st' = Home.inputMessage st
    ∧ Home.isTyping st' = Home.isTyping st.
Proof.
  intros Hm Hnd. unfold toggleSource. rewrite Hm. cbn [mbind option_bind].
  eexists _, _. split; [reflexivity|]. cbn [Home.messages].
  split; [apply list_lookup_insert_eq; by eapply lookup_lt_Some|].
  destruct (toggle_flips _ sourceIndex Hnd) as (Hnd' & Hx & Hy).
  rewrite expanded_toggle. cbn.
  assert (Hexp : ∀ k, expanded m k
                      = bool_decide (k ∈ default [] (Home.expandedSources m))).
  { intros k. unfold expanded. destruct (Home.expandedSources m); cbn; [done|].
    symmetry. apply bool_decide_eq_false_2, not_elem_of_nil. }
  split.
  { rewrite Hexp. apply eq_true_iff_eq.
    rewrite negb_true_iff, bool_decide_eq_true, bool_decide_eq_false. done. }
  split.
  { intros k Hk. rewrite Hexp. apply bool_decide_ext.
    by apply Hy. }
  repeat (split; [done|]).
  split; [by rewrite length_insert|].
  split; [|done].
  intros j Hj. by apply list_lookup_insert_ne.
Qed.

Lemma toggleSource_flips_witness :
  ∃ st', toggleSource 1 2 Samples.chat_state = Some st'.
Proof.
  destruct (toggleSource_flips 1 2 Samples.chat_state Samples.reply eq_refl)
    as (st' & _ & Hst & _).
  - simpl. apply NoDup_nil_2.
  - by exists st'.
Defined.



End ToggleFacts.

(** ** The conversation store *)

Section DbFacts.
Import JS Db.

Lemma table_eq (db1 db2 : table) :
  rows db1 = rows db2 → next_id db1 = next_id db2 → db1 = db2.
Proof. destruct db1, db2; simpl; by intros -> ->. Qed.

Lemma update_missing (id : N) (f : conversation → conversation) (db : table) :
  rows db !! id = None → update id f db = db.
Proof.
  intros Hid. apply table_eq; [|done]. cbn.
  apply map_eq. intros j. rewrite lookup_alter.
  case_decide; [subst; by rewrite Hid | done].
Qed.

Lemma well_formed_empty : well_formed empty.
Proof. split; [done|]. intros id [c Hc]. cbn in Hc. by rewrite lookup_empty in Hc. Qed.

Lemma well_formed_add (c : conversation) (db : table) :
  well_formed db → well_formed (add c db).2.
Proof.
  intros [Hpos Hwf]. split; [cbn; lia|]. intros j [c' Hc]. cbn in *.
  destruct (decide (j = next_id db)) as [->|Hj]; [lia|].
  rewrite lookup_insert_ne in Hc by done.
  destruct (Hwf j); [by rewrite Hc | lia].
Qed.

Lemma well_formed_fresh (db : table) :
  well_formed db → rows db !! next_id db = None.
Proof.
  intros [_ Hwf]. destruct (rows db !! next_id db) eqn:Hr; [|done].
  destruct (Hwf (next_id db)); [by rewrite Hr | lia].
Qed.

Lemma well_formed_update (id : N) (f : conversation → conversation)
    (db : table) :
  well_formed db → well_formed (update id f db).
Proof.
  intros [Hpos Hwf]. split; [done|]. intros j [c Hc]. cbn in *.
  apply Hwf. rewrite lookup_alter in Hc.
  case_decide; [subst|by rewrite Hc].
  destruct (rows db !! j); [done|by cbn in Hc].
Qed.

Lemma well_formed_delete (id : N) (db : table) :
  well_formed db → well_formed (deleteConversation id db).
Proof.
  intros [Hpos Hwf]. split; [done|]. intros j Hj. cbn in *.
  apply lookup_delete_is_Some in Hj as [_ Hj]. by apply Hwf.
Qed.

(** X9: a new conversation gets a key that is not zero and was never in use;
    it is stored under that key with the given title (or the default one)
    and no messages, and every other conversation stays as it was. *)
Theorem createConversation_fresh (title : option jsstring)
    (created updated : jsstring) (db : table) :
  well_formed db →
  let '((id, c), db') := createConversation title created updated db in
  id ≠ 0%N
  ∧ getConversation id db = None
  ∧ getConversation id db' = Some c
  ∧ Db.title c = default (js "New Conversation") title
  ∧ messages c = Some []
  ∧ (∀ j, j ≠ id → getConversation j db' = getConversation j db)
  ∧ well_formed db'.
Proof.
  intros Hwf. pose proof (well_formed_fresh db Hwf) as Hfresh.
  destruct Hwf as [Hpos Hwf].
  unfold createConversation, add, getConversation. cbn.
  split; [lia|]. split; [done|].
  split; [apply lookup_insert_eq|]. split; [done|]. split; [done|].
  split.
  - intros j Hj. by rewrite lookup_insert_ne.
  - by apply (well_formed_add _ db).
Qed.

Lemma createConversation_fresh_witness :
  getConversation 1 (createConversation None (js "t0") (js "t0") empty).2
  = Some {| title := js "New Conversation"; messages := Some [];
            createdAt := js "t0"; updatedAt := js "t0" |}.
Proof.
  exact (proj1 (proj2 (proj2
    (createConversation_fresh None (js "t0") (js "t0") empty
       well_formed_empty)))).
Defined.

(** X10: saving messages or a title under a key that is not in the table
    changes nothing; under a key that is there, [updateConversation]
    replaces the messages and the update time and keeps title and creation
    time, [updateTitle] replaces the title and the update time and keeps
    the messages, and neither touches another conversation. *)
Theorem update_by_key (id : N) (ms : list Home.message)
    (t now : jsstring) (db : table) :
  (getConversation id db = None →
     updateConversation id ms now db = db ∧ updateTitle id t now db = db)
  ∧ (∀ c, getConversation id db = Some c →
       getConversation id (updateConversation id ms now db)
       = Some {| title := title c; messages := Some ms;
                 createdAt := createdAt c; updatedAt := now |}
       ∧ getConversation id (updateTitle id t now db)
         = Some {| title := t; messages := messages c;
                   createdAt := createdAt c; updatedAt := now |})
  ∧ (∀ j, j ≠ id →
       getConversation j (updateConversation id ms now db)
       = getConversation j db
       ∧ getConversation j (updateTitle id t now db) = getConversation j db)
  ∧ next_id (updateConversation id ms now db) = next_id db
  ∧ next_id (updateTitle id t now db) = next_id db.
Proof.
  unfold getConversation, updateConversation, updateTitle.
  split; [|split; [|split]].
  - intros Hid. split; by apply update_missing.
  - intros c Hc. cbn. rewrite !lookup_alter_eq, Hc. done.
  - intros j Hj. cbn. by rewrite !lookup_alter_ne.
  - done.
Qed.

(** X11: a deleted conversation is gone, the others stay, and its key is
    never handed out again: a conversation created afterwards, at any later
    time, has another key. *)
Theorem deleteConversation_gone (id : N) (title : option jsstring)
    (created updated : jsstring) (db : table) :
  well_formed db →
  is_Some (getConversation id db) →
  getConversation id (deleteConversation id db) = None
  ∧ (∀ j, j ≠ id →
       getConversation j (deleteConversation id db) = getConversation j db)
  ∧ (createConversation title created updated
       (deleteConversation id db)).1.1 ≠ id
  ∧ (createConversation title created updated
       (clearAll db)).1.1 ≠ id.
Proof.
  intros [Hpos Hwf] Hid. unfold getConversation in *. cbn.
  split; [apply lookup_delete_eq|].
  split; [intros j Hj; by apply lookup_delete_ne|].
  destruct (Hwf id Hid). split; lia.
Qed.

Lemma deleteConversation_gone_witness :
  getConversation 1
    (deleteConversation 1
       (createConversation None (js "t0") (js "t0") empty).2)
  = None.
Proof.
  refine (proj1 (deleteConversation_gone 1 None (js "t1") (js "t1")
                   (createConversation None (js "t0") (js "t0") empty).2
                   _ _)).
  - apply well_formed_add, well_formed_empty.
  - by eexists.
Defined.

End DbFacts.

(** ** The list of conversations, most recent first *)

Section OrderFacts.
Import JS Db.

Lemma compare_strings_eq (a b : jsstring) :
  compare_strings a b = Eq → a = b.
Proof.
  revert b. induction a as [|x a IH]; intros [|y b]; simpl; try done.
  destruct (N.compare_spec x y) as [->| |]; try done.
  by intros ->%IH.
Qed.

Lemma compare_strings_antisym (a b : jsstring) :
  compare_strings b a = CompOpp (compare_strings a b).
Proof.
  revert b. induction a as [|x a IH]; intros [|y b]; simpl; try done.
  rewrite (N.compare_antisym x y).
  destruct (x ?= y)%N; simpl; [apply IH|done..].
Qed.

Lemma compare_strings_lt_trans (a b c : jsstring) :
  compare_strings a b = Lt → compare_strings b c = Lt →
  compare_strings a c = Lt.
Proof.
  revert b c. induction a as [|x a IH]; intros [|y b] [|z c]; simpl;
    try done.
  destruct (N.compare_spec x y) as [->|Hxy|Hxy]; try done.
  - destruct (N.compare_spec y z) as [->|Hyz|Hyz]; try done. apply IH.
  - intros _.
    destruct (N.compare_spec y z) as [->|Hyz|Hyz]; try done; intros _.
    + destruct (N.compare_spec x z) as [->| |]; [lia|done|lia].
    + destruct (N.compare_spec x z) as [->| |]; [lia|done|lia].
Qed.

Lemma index_le_total (x y : N * conversation) :
  index_le x y = false → index_le y x = true.
Proof.
  unfold index_le. rewrite (compare_strings_antisym (updatedAt x.2)).
  destruct (compare_strings (updatedAt x.2) (updatedAt y.2)); simpl;
    try done.
  intros ?%N.leb_gt. apply N.leb_le. lia.
Qed.

Lemma index_le_trans (x y z : N * conversation) :
  index_le x y = true → index_le y z = true → index_le x z = true.
Proof.
  unfold index_le.
  destruct (compare_strings (updatedAt x.2) (updatedAt y.2)) eqn:Hxy;
    [| |done].
  - apply compare_strings_eq in Hxy. rewrite Hxy.
    destruct (compare_strings (updatedAt y.2) (updatedAt z.2)); try done.
    intros ?%N.leb_le ?%N.leb_le. apply N.leb_le. lia.
  - intros _.
    destruct (compare_strings (updatedAt y.2) (updatedAt z.2)) eqn:Hyz;
      [| |done]; intros _.
    + apply compare_strings_eq in Hyz. by rewrite <-Hyz, Hxy.
    + by rewrite (compare_strings_lt_trans _ _ _ Hxy Hyz).
Qed.

Lemma index_insert_elem (x y : N * conversation)
    (l : list (N * conversation)) :
  x ∈ index_insert y l ↔ x = y ∨ x ∈ l.
Proof.
  induction l as [|z l IH]; simpl.
  - rewrite list_elem_of_singleton, elem_of_nil. tauto.
  - destruct (index_le y z); rewrite !elem_of_cons; [tauto|].
    rewrite IH. tauto.
Qed.

Lemma index_insert_length (y : N * conversation)
    (l : list (N * conversation)) :
  length (index_insert y l) = S (length l).
Proof.
  induction l as [|z l IH]; simpl; [done|].
  destruct (index_le y z); simpl; by rewrite ?IH.
Qed.

Lemma index_insert_sorted (y : N * conversation)
    (l : list (N * conversation)) :
  StronglySorted (λ a b, index_le a b = true) l →
  StronglySorted (λ a b, index_le a b = true) (index_insert y l).
Proof.
  induction 1 as [|z l Hs IH Hall]; simpl; [by repeat constructor|].
  destruct (index_le y z) eqn:Hyz.
  - constructor; [by constructor|]. constructor; [done|].
    eapply Forall_impl; [exact Hall|]. intros w Hw. simpl in Hw.
    by eapply index_le_trans.
  - constructor; [done|]. apply Forall_forall.
    intros w [->|Hw]%index_insert_elem.
    + by apply index_le_total.
    + by eapply Forall_forall in Hall.
Qed.

Lemma orderBy_updatedAt_sorted (db : table) :
  StronglySorted (λ a b, index_le a b = true) (orderBy_updatedAt db).
Proof.
  unfold orderBy_updatedAt.
  induction (map_to_list (rows db)) as [|x l IH]; simpl; [constructor|].
  by apply index_insert_sorted.
Qed.

Lemma getAllConversations_elem (db : table) (id : N) (c : conversation) :
  (id, c) ∈ getAllConversations db ↔ getConversation id db = Some c.
Proof.
  unfold getAllConversations. rewrite elem_of_reverse.
  unfold orderBy_updatedAt, getConversation.
  rewrite <-elem_of_map_to_list.
  induction (map_to_list (rows db)) as [|x l IH]; simpl; [done|].
  by rewrite index_insert_elem, elem_of_cons, IH.
Qed.

(** X12: [getAllConversations] lists exactly the stored conversations, each
    once under its key, ordered by update time with the most recent first
    (later keys first among equal times). *)
Theorem getAllConversations_recent_first (db : table) :
  StronglySorted (λ a b, index_le b a = true) (getAllConversations db)
  ∧ (∀ id c, (id, c) ∈ getAllConversations db ↔
             getConversation id db = Some c)
  ∧ length (getAllConversations db) = size (rows db).
Proof.
  unfold getAllConversations. split; [|split].
  - assert (Htr : Transitive (λ a b : N * conversation, index_le b a = true))
      by (intros a b c Hab Hbc; by eapply index_le_trans).
    apply (@Sorted_StronglySorted _ _ Htr).
    apply (Sorted_reverse (λ a b, index_le a b = true)).
    apply StronglySorted_Sorted, orderBy_updatedAt_sorted.
  - apply getAllConversations_elem.
  - rewrite length_reverse. unfold orderBy_updatedAt.
    rewrite <-length_map_to_list.
    induction (map_to_list (rows db)) as [|x l IH]; simpl; [done|].
    by rewrite index_insert_length, IH.
Qed.

End OrderFacts.

(** ** Saving and loading the conversation of the chat view *)

Section ConversationFacts.
Import JS Conversations.

(** X6: the title made from the first message is the message itself when it
    has at most 50 code units, and otherwise its first 50 code units
    followed by three dots; it never has more than 53 code units. *)
Theorem smartTitle_bound (firstMessage : jsstring) :
  (length (smartTitle firstMessage) ≤ 53)%nat
  ∧ ((length firstMessage ≤ 50)%nat → smartTitle firstMessage = firstMessage)
  ∧ ((50 < length firstMessage)%nat →
     smartTitle firstMessage = take 50 firstMessage ++ js "...").
Proof.
  unfold smartTitle.
  destruct (Z.ltb_spec 50 (Z.of_nat (length firstMessage))) as [Hlt|Hle].
  - rewrite substring_prefix by lia.
    split; [|split; [lia|done]].
    rewrite length_app, length_take. cbn. lia.
  - split; [lia|]. split; [done|lia].
Qed.

Lemma watch_rows (s : session) (now1 now2 : jsstring) (db : Db.table)
    (j : N) :
  currentConversationId s ≠ Some j →
  Db.getConversation j (watch s now1 now2 db) = Db.getConversation j db.
Proof.
  intros Hj. unfold watch.
  destruct (currentConversationId s) as [id|]; [|done].
  assert (j ≠ id) by congruence.
  destruct (truthy_id (Some id) && _); [|done].
  destruct (Home.messages (view s)) as [|m [|m' ms]];
    unfold Db.updateTitle, Db.updateConversation, Db.getConversation; cbn;
    by rewrite !lookup_alter_ne.
Qed.



(** X8: the watcher never adds or removes a conversation and never changes
    one that is not the current one; with no current conversation, with the
    key zero or with no message it leaves the store as it is, and so it
    does when the current conversation is not in the store. *)
Theorem watch_only_current (s : session) (now1 now2 : jsstring)
    (db : Db.table) :
  (∀ j, is_Some (Db.getConversation j (watch s now1 now2 db))
        ↔ is_Some (Db.getConversation j db))
  ∧ Db.next_id (watch s now1 now2 db) = Db.next_id db
  ∧ (∀ j, currentConversationId s ≠ Some j →
       Db.getConversation j (watch s now1 now2 db) = Db.getConversation j db)
  ∧ (truthy_id (currentConversationId s) = false
     ∨ Home.messages (view s) = []
     ∨ (∃ id, currentConversationId s = Some id
              ∧ Db.getConversation id db = None) →
     watch s now1 now2 db = db).
Proof.
  split; [|split; [|split]].
  - intros j. unfold watch.
    destruct (currentConversationId s) as [id|]; [|done].
    destruct (truthy_id (Some id) && _); [|done].
    unfold Db.getConversation.
    destruct (Home.messages (view s)) as [|m [|m' ms]]; cbn;
      by rewrite !lookup_alter_is_Some.
  - unfold watch.
    destruct (currentConversationId s) as [id|]; [|done].
    destruct (truthy_id (Some id) && _); [|done].
    by destruct (Home.messages (view s)) as [|m [|m' ms]].
  - intros j. apply watch_rows.
  - unfold watch. intros [Hid|[Hms|(id & Hid & Hnone)]].
    + destruct (currentConversationId s) as [id|]; [|done].
      by rewrite Hid.
    + destruct (currentConversationId s) as [id|]; [|done].
      rewrite Hms. cbn. by rewrite andb_false_r.
    + rewrite Hid. destruct (truthy_id (Some id) && _); [|done].
      unfold Db.getConversation in Hnone.
      destruct (Home.messages (view s)) as [|m [|m' ms]];
        unfold Db.updateTitle, Db.updateConversation;
        rewrite (update_missing id _ db) by done;
        by rewrite ?(update_missing id _ db) by done.
Qed.

End ConversationFacts.

(** ** The sidebar *)

Section SidebarFacts.
Import JS Sidebar.

(** X13: [formatDate] says "Just now" for anything less than a minute old
    (a date in the future included), then whole minutes from 1 to 59, whole
    hours from 1 to 23 and whole days from 1 to 6, and leaves anything of a
    week or more to the locale's date format; it never shows a zero. *)
Theorem formatDate_ranges (toLocaleDateString : Z → jsstring)
    (now date : Z) :
  let age := now - date in
  let label := formatDate toLocaleDateString now date in
  (age < 60000 → label = js "Just now")
  ∧ (60000 ≤ age < 3600000 →
     1 ≤ age `div` 60000 ≤ 59
     ∧ label = js (pretty (age `div` 60000)) ++ js "m ago")
  ∧ (3600000 ≤ age < 86400000 →
     1 ≤ age `div` 3600000 ≤ 23
     ∧ label = js (pretty (age `div` 3600000)) ++ js "h ago")
  ∧ (86400000 ≤ age < 604800000 →
     1 ≤ age `div` 86400000 ≤ 6
     ∧ label = js (pretty (age `div` 86400000)) ++ js "d ago")
  ∧ (604800000 ≤ age → label = toLocaleDateString date).
Proof.
  intros age label. subst label. unfold formatDate. fold age.
  assert (Hm := Z.div_mod age 60000 ltac:(lia)).
  assert (Hm' := Z.mod_pos_bound age 60000 ltac:(lia)).
  assert (Hh := Z.div_mod age 3600000 ltac:(lia)).
  assert (Hh' := Z.mod_pos_bound age 3600000 ltac:(lia)).
  assert (Hd := Z.div_mod age 86400000 ltac:(lia)).
  assert (Hd' := Z.mod_pos_bound age 86400000 ltac:(lia)).
  repeat split; intros;
    repeat match goal with
           | |- context [?a <? ?b] => destruct (Z.ltb_spec a b)
           end; try done; lia.
Qed.

Example formatDate_ninety_minutes :
  formatDate (λ _, js "1/1/2025") 5400000 0 = js "1h ago".
Proof. by vm_compute. Qed.

Lemma go_home_events (path : jsstring) (e : event) :
  e ∈ go_home path → e = RouterPush (js "/") ∧ path ≠ js "/".
Proof.
  unfold go_home. case_bool_decide.
  - by intros ->%list_elem_of_singleton.
  - by intros ?%elem_of_nil.
Qed.

(** X14: [createNewChat] makes a conversation under a fresh key, selects it,
    shows it in the list of conversations and announces it with one
    [new-chat] event, after going to the home route when the view is on
    another route; the conversations that existed stay in the store. *)
Theorem createNewChat_selects (created updated path : jsstring)
    (st : state) (db : Db.table) :
  Db.well_formed db →
  let '(st', db', events) := createNewChat created updated path st db in
  ∃ id c,
    currentChatId st' = Some id
    ∧ Db.getConversation id db = None
    ∧ Db.getConversation id db' = Some c
    ∧ Db.messages c = Some []
    ∧ (id, c) ∈ conversations st'
    ∧ events = (if bool_decide (path = js "/") then []
                else [RouterPush (js "/")]) ++ [NewChat id]
    ∧ (∀ j, j ≠ id → Db.getConversation j db' = Db.getConversation j db)
    ∧ Db.well_formed db'.
Proof.
  intros Hwf. unfold createNewChat.
  pose proof (well_formed_fresh db Hwf) as Hfresh.
  unfold Db.createConversation, Db.add. cbn.
  eexists _, _. split; [reflexivity|]. split; [done|].
  split; [apply lookup_insert_eq|]. split; [done|].
  split.
  { apply getAllConversations_elem. apply lookup_insert_eq. }
  split.
  { unfold go_home. by repeat case_bool_decide. }
  split.
  { intros j Hj. unfold Db.getConversation. cbn. by rewrite lookup_insert_ne. }
  by apply (well_formed_add _ db).
Qed.

Lemma createNewChat_selects_witness :
  ∃ id, currentChatId
          (createNewChat (js "t0") (js "t0") (js "/settings")
             {| currentChatId := None; sidebarOpen := true;
                conversations := []; searchQuery := []; isLoading := false |}
             Db.empty).1.1
        = Some id.
Proof.
  destruct (createNewChat_selects (js "t0") (js "t0") (js "/settings")
    {| currentChatId := None; sidebarOpen := true;
       conversations := []; searchQuery := []; isLoading := false |}
    Db.empty well_formed_empty) as (id & _ & Hid & _).
  by exists id.
Defined.

Lemma create_after_delete (id : N) (title : option jsstring)
    (created updated : jsstring) (db : Db.table) :
  Db.well_formed db →
  is_Some (Db.getConversation id db) →
  let '((id', c'), db') :=
    Db.createConversation title created updated
      (Db.deleteConversation id db) in
  id' ≠ id
  ∧ Db.getConversation id db' = None
  ∧ Db.getConversation id' db' = Some c'
  ∧ (∀ j, j ≠ id → is_Some (Db.getConversation j db) →
       Db.getConversation j db' = Db.getConversation j db).
Proof.
  intros [Hpos Hkeys] Hid. destruct (Hkeys id Hid) as [_ Hlt].
  unfold Db.createConversation, Db.add, Db.getConversation in *. cbn.
  split; [lia|].
  split; [rewrite lookup_insert_ne by lia; apply lookup_delete_eq|].
  split; [apply lookup_insert_eq|].
  intros j Hj Hsome. destruct (Hkeys j Hsome) as [_ Hjlt].
  rewrite lookup_insert_ne by lia. by apply lookup_delete_ne.
Qed.

(** X15: a confirmed [deleteChat] removes the conversation from the store
    and from the list and keeps the others; if it was the current chat, a
    new conversation with another key is created, selected and announced,
    and otherwise the selection stays and nothing is announced.  Without
    confirmation nothing happens. *)
Theorem deleteChat_confirmed (id : N) (created updated path : jsstring)
    (st : state) (db : Db.table) :
  Db.well_formed db →
  is_Some (Db.getConversation id db) →
  let '(st', db', events) :=
    deleteChat id true created updated path st db in
  Db.getConversation id db' = None
  ∧ (∀ c, (id, c) ∉ conversations st')
  ∧ (∀ j, j ≠ id → is_Some (Db.getConversation j db) →
       Db.getConversation j db' = Db.getConversation j db
       ∧ ∃ c, (j, c) ∈ conversations st')
  ∧ (currentChatId st ≠ Some id →
       currentChatId st' = currentChatId st ∧ events = [])
  ∧ (currentChatId st = Some id →
       ∃ id' c', id' ≠ id
                 ∧ currentChatId st' = Some id'
                 ∧ Db.getConversation id' db' = Some c'
                 ∧ (id', c') ∈ conversations st'
                 ∧ NewChat id' ∈ events)
  ∧ deleteChat id false created updated path st db = (st, db, []).
Proof.
  intros Hwf Hid.
  unfold deleteChat. cbn [loadConversations currentChatId].
  case_bool_decide as Hcur.
  - unfold createNewChat.
    pose proof (create_after_delete id None created updated db Hwf Hid)
      as Hcreate.
    destruct (Db.createConversation None created updated
                (Db.deleteConversation id db)) as [[id' c'] db'].
    destruct Hcreate as (Hne & Hgone & Hnew & Hkeep).
    cbn [loadConversations set_currentChatId currentChatId conversations].
    split; [done|]. split.
    { intros c Hc%getAllConversations_elem. congruence. }
    split.
    { intros j Hj [c Hc]. rewrite (Hkeep j Hj) by (by exists c).
      split; [done|]. exists c. apply getAllConversations_elem.
      by rewrite (Hkeep j Hj) by (by exists c). }
    split; [done|]. split; [|done].
    intros _. exists id', c'. split; [done|]. split; [done|].
    split; [done|]. split; [by apply getAllConversations_elem|].
    apply elem_of_app. right. by apply list_elem_of_singleton.
  - cbn [loadConversations currentChatId conversations].
    assert (Hgone : Db.getConversation id (Db.deleteConversation id db)
                    = None) by apply lookup_delete_eq.
    assert (Hkeep : ∀ j, j ≠ id →
              Db.getConversation j (Db.deleteConversation id db)
              = Db.getConversation j db)
      by (intros j Hj; by apply lookup_delete_ne).
    split; [done|]. split.
    { intros c Hc%getAllConversations_elem. congruence. }
    split.
    { intros j Hj [c Hc]. rewrite (Hkeep j Hj). split; [done|].
      exists c. apply getAllConversations_elem. by rewrite (Hkeep j Hj). }
    split; [done|]. split; [done|done].
Qed.

Lemma deleteChat_confirmed_witness :
  let db := (Db.createConversation None (js "t0") (js "t0") Db.empty).2 in
  Db.getConversation 1
    (deleteChat 1 true (js "t1") (js "t1") (js "/")
       {| currentChatId := Some 1%N; sidebarOpen := true;
          conversations := []; searchQuery := []; isLoading := false |}
       db).1.2
  = None.
Proof.
  intros db.
  refine (proj1 (deleteChat_confirmed 1 (js "t1") (js "t1") (js "/")
    {| currentChatId := Some 1%N; sidebarOpen := true;
       conversations := []; searchQuery := []; isLoading := false |}
    db _ _)).
  - apply well_formed_add, well_formed_empty.
  - by eexists.
Defined.

End SidebarFacts.

(** ** The in-memory chat history of the first shell *)

Section AppFacts.
Import JS App.








End AppFacts.

(** ** The archives view *)

Section ArchivesFacts.
Import JS Archives.

(** X17: [fetchArchives] asks once, for the current search text, and always
    ends with the loading flag off; an answer is shown as it is and clears
    the error, and without an answer the error text is set and the two
    built-in records are shown instead. *)
Theorem fetchArchives_outcomes (server : jsstring → option (list archive))
    (st : state) :
  let st' := run (fetchArchives server st) st in
  loading st' = false
  ∧ searchQuery st' = searchQuery st
  ∧ omap (λ e, match e with GetArchives q => Some q | _ => None end)
         (fetchArchives server st) = [searchQuery st]
  ∧ (∀ data, server (searchQuery st) = Some data →
       archives st' = data ∧ error st' = None)
  ∧ (server (searchQuery st) = None →
       archives st' = mock_data
       ∧ length (archives st') = 2%nat
       ∧ error st'
         = Some (js "Failed to fetch archives. Make sure the backend is running.")).
Proof.
  intros st'. subst st'. unfold fetchArchives.
  destruct (server (searchQuery st)) as [data|]; cbn.
  - split; [done|]. split; [done|]. split; [done|].
    split; [|done]. by intros ? [= <-].
  - split; [done|]. split; [done|]. split; [done|].
    split; [done|]. by intros _.
Qed.

End ArchivesFacts.

(** ** Saving, reloading and testing in the settings form *)

Section SettingsMoreFacts.
Import JS Settings SettingsTest.

(** X18: when one of the two requests of [loadConfig] fails, nothing of the
    form changes, whatever the other request returned. *)
Theorem loadConfig_failure {S : Type} (srv : server S) (s : S) (st : state) :
  get_config srv s = None ∨ get_providers srv s = None →
  run (loadConfig srv s) st = st
  ∧ loadConfig srv s = [GetConfig; GetProviders; LogError].
Proof.
  intros Hfail. unfold loadConfig.
  destruct (get_config srv s), (get_providers srv s), st;
    by destruct Hfail.
Qed.

Lemma loadConfig_failure_witness :
  run (loadConfig Samples.rejecting_server ()) Samples.settings_state
  = Samples.settings_state.
Proof.
  refine (proj1 (loadConfig_failure Samples.rejecting_server ()
                   Samples.settings_state _)).
  by left.
Defined.

(** X19: when the POST of [saveConfig] fails, the form keeps what was typed
    (the key included) and the configuration shown, the notice is the
    detail of the failure, or a default text when there is none, no GET is
    sent, and the form is no longer saving. *)
Theorem saveConfig_failure {S : Type} (srv : server S) (st : state)
    (s s' : S) (detail : option jsstring) :
  post_config srv (payload (formData st)) s = (inl detail, s') →
  let saved := saveConfig srv st s in
  saved.2 = s'
  ∧ formData (run saved.1 st) = formData st
  ∧ modelConfig (run saved.1 st) = modelConfig st
  ∧ providers (run saved.1 st) = providers st
  ∧ saving (run saved.1 st) = false
  ∧ message (run saved.1 st)
    = Some (Failure match detail with
                    | Some (c :: d) => c :: d
                    | _ => js "Failed to save configuration"
                    end)
  ∧ (GetConfig ∉ saved.1) ∧ (GetProviders ∉ saved.1).
Proof.
  intros Hpost saved. subst saved. unfold saveConfig. rewrite Hpost.
  cbn -[payload js].
  repeat (split; [done|]). split; [|split].
  - by destruct detail as [[|c d]|].
  - intros Hin. repeat (apply elem_of_cons in Hin as [Hin|Hin]; [done|]).
    by apply elem_of_nil in Hin.
  - intros Hin. repeat (apply elem_of_cons in Hin as [Hin|Hin]; [done|]).
    by apply elem_of_nil in Hin.
Qed.

Lemma saveConfig_failure_witness :
  formData (run (saveConfig Samples.rejecting_server
                   Samples.settings_state ()).1 Samples.settings_state)
  = formData Samples.settings_state.
Proof.
  exact (proj1 (proj2
    (saveConfig_failure Samples.rejecting_server Samples.settings_state
       () () (Some (js "Invalid provider")) eq_refl))).
Defined.

(** X20: after a successful POST, [saveConfig] shows the success notice and
    reloads: when both GETs answer, the form takes provider, model and
    temperature from the answer and its key input is emptied; when one
    fails, the form keeps what was typed.  Either way it is no longer
    saving. *)
Theorem saveConfig_reload {S : Type} (srv : server S) (st : state)
    (s s' : S) :
  post_config srv (payload (formData st)) s = (inr (), s') →
  let saved := saveConfig srv st s in
  saved.2 = s'
  ∧ saving (run saved.1 st) = false
  ∧ message (run saved.1 st)
    = Some (Success (js
        "Configuration saved successfully! The changes will take effect immediately."))
  ∧ (∀ config provs,
       get_config srv s' = Some config →
       get_providers srv s' = Some provs →
       modelConfig (run saved.1 st) = config
       ∧ providers (run saved.1 st) = provs
       ∧ formData (run saved.1 st)
         = {| provider := cfg_provider config;
              model_name := cfg_model_name config;
              temperature := cfg_temperature config;
              api_key := [] |})
  ∧ (get_config srv s' = None ∨ get_providers srv s' = None →
       formData (run saved.1 st) = formData st
       ∧ modelConfig (run saved.1 st) = modelConfig st).
Proof.
  intros Hpost saved. subst saved. unfold saveConfig, loadConfig.
  rewrite Hpost.
  destruct (get_config srv s') as [config|],
           (get_providers srv s') as [provs|]; cbn -[payload js];
    (split; [done|]); (split; [done|]); (split; [done|]); split;
    try done; try (by intros ?? [= <-] [= <-]); try (by intros [|]).
Qed.

Lemma saveConfig_reload_witness :
  api_key (formData (run (saveConfig Samples.accepting_server
                            Samples.settings_state ()).1
                       Samples.settings_state))
  = [].
Proof.
  pose proof (saveConfig_reload Samples.accepting_server
                Samples.settings_state () () eq_refl)
    as (_ & _ & _ & Hload & _).
  destruct (Hload _ _ eq_refl eq_refl) as (_ & _ & ->). done.
Defined.

(** X21: [testConnection] saves first and then always sends its one chat
    request, whether the save succeeded or not; the notice it leaves tells
    the outcome of the chat request alone (a failed save is no longer
    shown), and at the end the form is neither testing nor saving. *)
Theorem testConnection_always_tests {S : Type} (srv : server S)
    (chat : S → option jsstring + ()) (st : test_state) (s : S) :
  let tested := testConnection srv chat st s in
  let saved := saveConfig srv (form_state st) s in
  tested.2 = saved.2
  ∧ omap (λ e, match e with PostChat m => Some m | _ => None end) tested.1
    = [js "Test connection"]
  ∧ tested.1 !! 4%nat
    = Some (Form (PostConfig (payload (formData (form_state st)))))
  ∧ testing (run_test tested.1 st) = false
  ∧ saving (form_state (run_test tested.1 st)) = false
  ∧ message (form_state (run_test tested.1 st))
    = Some match chat saved.2 with
           | inr () =>
               Success ([check_mark] ++ js
                 " Connection successful! The AI model is working correctly.")
           | inl (Some (c :: d)) => Failure (c :: d)
           | inl _ =>
               Failure (js
                 "Connection test failed. Please check your API key.")
           end.
Proof.
  intros tested saved. subst tested saved.
  unfold testConnection, saveConfig, loadConfig.
  cbn [run foldl apply_effect formData].
  destruct (post_config srv (payload (formData (form_state st))) s)
    as [outcome s'].
  cbn [fst snd].
  split; [done|].
  destruct outcome as [detail|[]];
    [|destruct (get_config srv s') as [config|],
               (get_providers srv s') as [provs|]];
    (destruct (chat s') as [[[|c0 d0]|]|[]]);
    by cbn -[payload js].
Qed.

(** A save that the server rejects, followed by a chat request that it
    answers: the form ends with the success notice of the test. *)
Example testConnection_after_rejected_save :
  message (form_state
    (run_test (testConnection Samples.rejecting_server (λ _, inr ())
                 {| form_state := Samples.settings_state; testing := false |}
                 ()).1
       {| form_state := Samples.settings_state; testing := false |}))
  = Some (Success ([check_mark] ++ js
      " Connection successful! The AI model is working correctly.")).
Proof. by vm_compute. Qed.

(** X22: the models offered for the selected provider are those of the first
    entry of the provider list with that id, and none when no entry has
    it. *)
Theorem availableModels_first_match (st : state) :
  (∀ i p, providers st !! i = Some p →
     entry_id p = provider (formData st) →
     (∀ j q, providers st !! j = Some q → (j < i)%nat →
        entry_id q ≠ provider (formData st)) →
     availableModels st = models p)
  ∧ ((∀ p, p ∈ providers st → entry_id p ≠ provider (formData st)) →
     availableModels st = []).
Proof.
  unfold availableModels. split.
  - intros i p Hp Hid Hfirst.
    assert (list_find (λ p, entry_id p = provider (formData st))
              (providers st) = Some (i, p)) as ->; [|done].
    apply list_find_Some. eauto.
  - intros Hnone.
    assert (list_find (λ p, entry_id p = provider (formData st))
              (providers st) = None) as ->; [|done].
    apply list_find_None, Forall_forall. exact Hnone.
Qed.

End SettingsMoreFacts.

(** ** More on the source-document view *)

Section SourceViewMoreFacts.
Import JS SourceView.

Lemma html_entity_nonempty (c : N) : html_entity c ≠ [].
Proof.
  unfold html_entity.
  repeat match goal with |- context [(?a =? ?b)%N] =>
           destruct (N.eqb_spec a b) end; done.
Qed.

(** Two escaped texts that start alike start with the same character. *)
Lemma html_entity_prefix (c1 c2 : N) (r1 r2 : jsstring) :
  html_entity c1 ++ r1 = html_entity c2 ++ r2 → c1 = c2 ∧ r1 = r2.
Proof.
  unfold html_entity.
  repeat match goal with |- context [(?a =? ?b)%N] =>
           destruct (N.eqb_spec a b) end;
    subst; vm_compute js; cbn [app]; intros Heq;
    try (injection Heq as ?; subst; done);
    try (by simplify_eq).
Qed.

(** X25: [escapeHtml] loses nothing: two texts with the same escaped form
    are the same text. *)
Theorem escapeHtml_injective (text1 text2 : jsstring) :
  escapeHtml text1 = escapeHtml text2 → text1 = text2.
Proof.
  rewrite !escapeHtml_bind. revert text2.
  induction text1 as [|c1 t1 IH]; intros [|c2 t2]; cbn [mbind list_bind].
  - done.
  - intros Heq. symmetry in Heq. apply app_eq_nil in Heq as [Heq _].
    by apply html_entity_nonempty in Heq.
  - intros Heq. apply app_eq_nil in Heq as [Heq _].
    by apply html_entity_nonempty in Heq.
  - intros [-> Heq]%html_entity_prefix. f_equal. by apply IH.
Qed.

Lemma escapeHtml_injective_witness :
  js "a<b" = js "a<b".
Proof.
  exact (escapeHtml_injective (js "a<b") (js "a<b") eq_refl).
Defined.

(** X26: a text with none of the five characters comes out of [escapeHtml]
    unchanged, and no text comes out shorter. *)
Theorem escapeHtml_plain (text : jsstring) :
  (length text ≤ length (escapeHtml text))%nat
  ∧ (Forall (λ c, c ∉ [amp; lt; gt; dquote; squote]) text →
     escapeHtml text = text).
Proof.
  rewrite escapeHtml_bind. split.
  - induction text as [|c t IH]; cbn [mbind list_bind]; [done|].
    rewrite length_app. cbn [length].
    pose proof (html_entity_nonempty c).
    destruct (html_entity c); [done|]. cbn [length]. lia.
  - induction 1 as [|c t Hc _ IH]; cbn [mbind list_bind]; [done|].
    rewrite IH. unfold html_entity.
    rewrite !elem_of_cons, elem_of_nil in Hc.
    repeat match goal with |- context [(?a =? ?b)%N] =>
             destruct (N.eqb_spec a b) end; try done; tauto.
Qed.

(** X23: what [findChunkInDocument] returns is -1 or the offset of an
    occurrence in the document of the trimmed chunk, of its first 100 code
    units or of its trimmed first line (then longer than 20 code units), in
    this order of preference; it is the first occurrence of the trimmed
    chunk whenever there is one. *)
Theorem findChunkInDocument_occurrence (fullDoc chunk : jsstring) :
  let index := findChunkInDocument fullDoc chunk in
  (index = -1
   ∨ ∃ needle before after,
       fullDoc = before ++ needle ++ after
       ∧ index = Z.of_nat (length before)
       ∧ (needle = trim chunk
          ∨ needle = substring (trim chunk) 0 100
          ∨ needle = trim (splitHead 10 (trim chunk))
            ∧ (20 < length needle)%nat))
  ∧ (indexOf fullDoc (trim chunk) ≠ -1 →
     index = indexOf fullDoc (trim chunk))
  ∧ (index = -1 →
     indexOf fullDoc (trim chunk) = -1
     ∧ indexOf fullDoc (substring (trim chunk) 0 100) = -1).
Proof.
  intros index. subst index. unfold findChunkInDocument. lazy zeta.
  set (i1 := indexOf fullDoc (trim chunk)).
  set (i2 := indexOf fullDoc (substring (trim chunk) 0 100)).
  set (firstLine := trim (splitHead 10 (trim chunk))).
  set (i3 := indexOf fullDoc firstLine).
  destruct (i1 =? -1) eqn:H1; lazy iota.
  - apply Z.eqb_eq in H1.
    destruct (i2 =? -1) eqn:H2; lazy iota.
    + apply Z.eqb_eq in H2. split; [|split; [done|done]].
      destruct (Z.ltb_spec 20 (Z.of_nat (length firstLine))) as [Hlen|Hlen];
        [|by left].
      destruct (decide (i3 = -1)) as [H3|H3]; [by left|].
      right. destruct (indexOf_found _ _ H3) as (pre & post & Heq & Hidx).
      exists firstLine, pre, post. split; [done|]. split; [done|].
      right; right. split; [done|lia].
    + apply Z.eqb_neq in H2.
      split; [|split; [done|done]].
      right. destruct (indexOf_found _ _ H2) as (pre & post & Heq & Hidx).
      eexists _, pre, post. split; [done|]. split; [done|]. by right; left.
  - rewrite H1. lazy iota. apply Z.eqb_neq in H1.
    split; [|split; [done|done]].
    right. destruct (indexOf_found _ _ H1) as (pre & post & Heq & Hidx).
    eexists _, pre, post. split; [done|]. split; [done|]. by left.
Qed.

(** X27: [fetchFullDocument] always ends with the loading flag off and never
    changes [source]; without a source or with an empty filename it sends
    no request and leaves the document as it is, and otherwise it sends
    one request, for that filename, and a successful answer becomes the
    document. *)
Theorem fetchFullDocument_settles (server : jsstring → fetch_result)
    (st : state) :
  let es := fetchFullDocument server st in
  loadingDocument (run es st) = false
  ∧ source (run es st) = source st
  ∧ (from_option (λ s, Home.filename s = []) True (source st) →
     es = [SetLoadingDocument false]
     ∧ fullDocument (run es st) = fullDocument st)
  ∧ (∀ s, source st = Some s → Home.filename s ≠ [] →
       omap (λ e, match e with GetDocument f => Some f | _ => None end) es
       = [Home.filename s]
       ∧ ∀ content, server (Home.filename s) = Fetched content →
           fullDocument (run es st) = content).
Proof.
  intros es. subst es. unfold fetchFullDocument.
  destruct (source st) as [s|] eqn:Hs; cbn [from_option].
  - destruct (truthy (Home.filename s)) eqn:Hname; cbn [negb].
    + apply truthy_true in Hname.
      destruct (server (Home.filename s)) as [content|] eqn:Hsrv; cbn;
        (split; [done|]); (split; [done|]); (split; [done|]);
        intros s' Hs' _; simplify_eq; rewrite Hsrv;
        (split; [done|]); intros content' Hc; by simplify_eq.
    + cbn. split; [done|]. split; [done|]. split; [done|].
      intros s' Hs' Hne. simplify_eq. by destruct (Home.filename s').
  - cbn. by rewrite Hs.
Qed.

Lemma highlight_exact_match_witness :
  ∃ before after,
    js "see <b>bold</b> text" = before ++ js "<b>bold</b>" ++ after.
Proof.
  destruct (highlight_exact_match
    {| Home.filename := js "plans.txt";
       Home.preview := js " <b>bold</b> ";
       Home.relevance_score := 0%Qc;
       Home.web_url := None;
       Home.has_watermark := false |}
    (js "see <b>bold</b> text"))
    as (before & after & Heq & _).
  - vm_compute. discriminate.
  - vm_compute. discriminate.
  - vm_compute. discriminate.
  - exists before, after. exact Heq.
Defined.

End SourceViewMoreFacts.

(** ** More on the chat view *)

Section HomeMoreFacts.
Import JS Home.

Lemma trimStart_head (s : jsstring) (c : N) (t : jsstring) :
  trimStart s = c :: t → isWhiteSpace c = false.
Proof.
  induction s as [|d s IH]; simpl; [done|].
  destruct (isWhiteSpace d) eqn:Hd; [done|]. by intros [= <- _].
Qed.

Lemma trimStart_nil (s : jsstring) :
  trimStart s = [] → Forall (λ c, isWhiteSpace c = true) s.
Proof.
  induction s as [|d s IH]; simpl; [constructor|].
  destruct (isWhiteSpace d) eqn:Hd; [|done]. by constructor; auto.
Qed.

Lemma trimStart_suffix (s : jsstring) :
  ∃ ws, s = ws ++ trimStart s ∧ Forall (λ c, isWhiteSpace c = true) ws.
Proof.
  induction s as [|d s (ws & Heq & Hws)]; simpl; [by exists []|].
  destruct (isWhiteSpace d) eqn:Hd.
  - exists (d :: ws). split; [by rewrite <-app_comm_cons, <-Heq|].
    by constructor.
  - by exists [].
Qed.

(** [trim] leaves nothing exactly of the strings that are all whitespace. *)
Lemma trim_nil_iff (s : jsstring) :
  trim s = [] ↔ Forall (λ c, isWhiteSpace c = true) s.
Proof.
  split; [|apply trim_blank].
  unfold trim, trimEnd. intros Hnil.
  destruct (trimStart_suffix s) as (ws & Heq & Hws).
  rewrite Heq. apply Forall_app. split; [done|].
  apply (f_equal reverse) in Hnil. rewrite reverse_involutive in Hnil.
  cbn in Hnil. apply trimStart_nil in Hnil.
  apply Forall_reverse in Hnil. by rewrite reverse_involutive in Hnil.
Qed.

Lemma trim_nonempty_exists (s : jsstring) :
  trim s ≠ [] → Exists (λ c, isWhiteSpace c = false) s.
Proof.
  intros Hne. destruct (trimStart_suffix s) as (ws & Heq & _).
  destruct (trimStart s) as [|c t] eqn:Hts; [by destruct Hne; unfold trim; rewrite Hts|].
  rewrite Heq. apply Exists_app. right. constructor.
  by eapply trimStart_head.
Qed.

(** X2: [sendMessage] does something exactly when the text has a code unit
    that is not whitespace, and then it posts the text as typed, not
    trimmed, once. *)
Theorem sendMessage_sends_iff (server : jsstring → axios_result)
    (content : jsstring) :
  (posts (sendMessage server content) = [content]
   ↔ Exists (λ c, isWhiteSpace c = false) content)
  ∧ (sendMessage server content = []
     ↔ Forall (λ c, isWhiteSpace c = true) content).
Proof.
  assert (Hiff : truthy (trim content) = false
                 ↔ Forall (λ c, isWhiteSpace c = true) content).
  { rewrite <-trim_nil_iff. by destruct (trim content). }
  unfold sendMessage.
  destruct (truthy (trim content)) eqn:Ht; cbn [negb].
  - assert (Hex : Exists (λ c, isWhiteSpace c = false) content).
    { apply trim_nonempty_exists. by apply truthy_true. }
    split.
    + split; [done|]. intros _. by destruct (server content).
    + split; [by destruct (server content)|].
      intros Hall%Hiff. congruence.
  - pose proof (proj1 Hiff eq_refl) as Hall. split; [|done].
    split; [done|].
    intros Hex. apply Exists_exists in Hex as (c & Hc & Hws).
    eapply Forall_forall in Hall; [|exact Hc]. congruence.
Qed.

(** X1: on a text that is not blank, [sendMessage] appends the user's
    message as typed and then the reply (the answer, or the error text),
    empties the input, posts once and ends with the typing indicator off;
    the indicator is on when the request is posted, and while it is on the
    form's submit does nothing. *)
Theorem sendMessage_run (server : jsstring → axios_result)
    (content : jsstring) (st : state) :
  trim content ≠ [] →
  let st' := run (sendMessage server content) st in
  messages st'
  = messages st
    ++ [user_message content;
        match server content with
        | Resolved data => assistant_message data
        | Rejected error => error_message error
        end]
  ∧ inputMessage st' = []
  ∧ isTyping st' = false
  ∧ posts (sendMessage server content) = [content]
  ∧ (∃ before after,
       sendMessage server content = before ++ PostChat content :: after
       ∧ isTyping (run before st) = true)
  ∧ (∀ pending, isTyping pending = true → handleSubmit server pending = []).
Proof.
  intros Hc%truthy_true st'. subst st'. unfold sendMessage. rewrite Hc.
  cbn [negb].
  split; [|split; [|split; [|split; [|split]]]].
  - destruct (server content); cbn; by rewrite <-app_assoc.
  - by destruct (server content).
  - by destruct (server content).
  - by destruct (server content).
  - by eexists [_; _; _; _], _.
  - intros pending Hp. unfold handleSubmit. by rewrite Hp, andb_false_r.
Qed.

Lemma sendMessage_run_witness :
  inputMessage
    (run (sendMessage (λ _, Rejected {| err_response := None |})
            Samples.query)
         {| messages := []; inputMessage := Samples.query;
            isTyping := false |})
  = [].
Proof.
  refine (proj1 (proj2 (sendMessage_run
    (λ _, Rejected {| err_response := None |}) Samples.query
    {| messages := []; inputMessage := Samples.query; isTyping := false |}
    _))).
  vm_compute. discriminate.
Defined.

(** X3: every error text opens with the same sentence; when the server was
    not reached, or its answer has no detail or an empty one, the text ends
    with the hint to check that the back end is running, whatever the
    status. *)
Theorem error_text_without_detail (error : axios_error) :
  (∃ rest, error_text error
           = js "I'm having trouble processing your request. " ++ rest)
  ∧ (err_response error ≫= detail = None
     ∨ err_response error ≫= detail = Some [] →
     error_text error
     = js "I'm having trouble processing your request. "
       ++ js "Please make sure the backend service is running and configured properly.").
Proof.
  unfold error_text. split.
  - repeat match goal with
           | |- context [if ?b then _ else _] => destruct b
           end; by eexists.
  - intros [Hd|Hd]; rewrite Hd; cbn [from_option];
      by rewrite ?andb_false_r.
Qed.

End HomeMoreFacts.
